(** * A model of the Apple TV weather application (js/main.js)

    The application is one class, [AppleTVWeatherApp], whose methods mutate
    the fields of [this] and talk to the browser: the DOM, [localStorage],
    [fetch], timers, the console and the charting library.  The model
    below is a shallow embedding:

    - the fields of [this] form the record [App];
    - the browser forms the record [Browser]; the page's markup is not part
      of the sources, so the document is a parameter of every statement;
    - a method is a function in the monad [M], which threads the pair of
      both records and may end in a thrown [Error].  As in JavaScript, what
      was written before a [throw] stays written;
    - an asynchronous method is cut at its [await]s into the pieces that
      run to completion one after the other;
    - the runs of the program are the sequences of [Event]s the browser
      delivers after [DOMContentLoaded].

    Modelling decisions about the browser, all in the first part of the
    file: an element is referred to by its position in the document
    ([nat]); the calls [focus()], [blur()], [scrollIntoView()], the
    console and the network are recorded in a trace ([effects]) and not
    interpreted; text written to the page is kept as the template it was
    built from ([Text]), since the formatting of JavaScript numbers is not
    modelled; the [<br>] that [showError] inserts is omitted, no selector
    of the program can see it.  A response is an [hourly] record of
    arrays of any length whose entries are numbers or [null] ([Value]);
    reading past the end of an array yields [undefined] ([None]). *)

From stdpp Require Import base list strings gmap sorting.
From Stdlib Require Import ZArith QArith Lia Lqa.
Close Scope Q_scope.

(** ** JavaScript values and array primitives *)

Module Js.

(** [arr[i]] for an integer [i]: [undefined] outside of the array. *)
Definition index {A} (arr : list A) (i : Z) : option A :=
  if (i <? 0)%Z then None else arr !! Z.to_nat i.

(** [Array.prototype.slice(start, end)], relative indices included. *)
Definition slice {A} (arr : list A) (start end_ : Z) : list A :=
  let len := Z.of_nat (length arr) in
  let k := if (start <? 0)%Z then Z.max (len + start) 0 else Z.min start len in
  let final := if (end_ <? 0)%Z then Z.max (len + end_) 0 else Z.min end_ len in
  take (Z.to_nat (final - k)) (drop (Z.to_nat k) arr).

(** [arr.slice(start)]: the end defaults to the length. *)
Definition slice_from {A} (arr : list A) (start : Z) : list A :=
  slice arr start (Z.of_nat (length arr)).

(** [v || d] for [v] a string or [null]: [null] and [''] are falsy. *)
Definition or_default (v : option string) (d : string) : string :=
  match v with
  | Some s => if decide (s = "") then d else s
  | None => d
  end.

(** [String(v)] for [v] a string or [undefined]. *)
Definition to_string (v : option string) : string :=
  match v with Some s => s | None => "undefined" end.

(** The property names every object inherits from [Object.prototype]. *)
Definition object_prototype_keys : list string :=
  [ "constructor"; "toString"; "toLocaleString"; "valueOf";
    "hasOwnProperty"; "isPrototypeOf"; "propertyIsEnumerable";
    "__proto__"; "__defineGetter__"; "__defineSetter__";
    "__lookupGetter__"; "__lookupSetter__" ].

End Js.

(** ** Data *)

(** An entry of an array of the response: a number, or [null] where the
    provider has no value for the hour. *)
Inductive Value :=
| Num (q : Q)
| Null.

(** Text shown on the page, as the template string that produced it; the
    value is [None] for [undefined]. *)
Inductive Text :=
| TLit (s : string)
| TNumber (v : option Value)      (* `${v}` *)
| TRounded (v : option Value)     (* `${Math.round(v)}` *)
| TInheritedName (key : string)   (* the [name] of Object.prototype[key] *)
| TCat (a b : Text).

(** One element of the document.  [el_parent] is the position of the parent
    element; [el_attached] is false once the element has been removed from
    the document (assigning [textContent] removes the children). *)
Record Element := {
  el_id : option string;
  el_tag : string;
  el_parent : option nat;
  el_attached : bool;
  el_classes : list string;
  el_city : option string;          (* dataset.city *)
  el_disabled : bool;
  el_hidden : bool;
  el_text : Text;
}.

Definition with_classes (cs : list string) (e : Element) : Element :=
  {| el_id := el_id e; el_tag := el_tag e; el_parent := el_parent e;
     el_attached := el_attached e; el_classes := cs; el_city := el_city e;
     el_disabled := el_disabled e; el_hidden := el_hidden e;
     el_text := el_text e |}.

Definition with_text (t : Text) (e : Element) : Element :=
  {| el_id := el_id e; el_tag := el_tag e; el_parent := el_parent e;
     el_attached := el_attached e; el_classes := el_classes e;
     el_city := el_city e; el_disabled := el_disabled e;
     el_hidden := el_hidden e; el_text := t |}.

Definition removed_from (root : nat) (e : Element) : Element :=
  {| el_id := el_id e; el_tag := el_tag e;
     el_parent := if decide (el_parent e = Some root) then None else el_parent e;
     el_attached := false; el_classes := el_classes e;
     el_city := el_city e; el_disabled := el_disabled e;
     el_hidden := el_hidden e; el_text := el_text e |}.

Record City := { name : string; lat : string; lon : string }.

(** [this.cities].  Latitude and longitude only ever reach the request
    URL, so they are kept as the text JavaScript prints for them. *)
Definition cities : list (string * City) :=
  [ ("tokyo",     {| name := "東京";   lat := "35.6762"; lon := "139.6503" |});
    ("osaka",     {| name := "大阪";   lat := "34.6937"; lon := "135.5023" |});
    ("nagoya",    {| name := "名古屋"; lat := "35.1815"; lon := "136.9066" |});
    ("sapporo",   {| name := "札幌";   lat := "43.0642"; lon := "141.3469" |});
    ("fukuoka",   {| name := "福岡";   lat := "33.5904"; lon := "130.4017" |});
    ("sendai",    {| name := "仙台";   lat := "38.2682"; lon := "140.8694" |});
    ("hiroshima", {| name := "広島";   lat := "34.3853"; lon := "132.4553" |});
    ("kyoto",     {| name := "京都";   lat := "35.0116"; lon := "135.7681" |});
    ("naha",      {| name := "那覇";   lat := "26.2124"; lon := "127.6809" |});
    ("okayama",   {| name := "岡山";   lat := "34.6551"; lon := "133.9195" |}) ].

(** The result of [this.cities[key]]: an entry of the table, a member
    inherited from [Object.prototype], or [undefined]. *)
Inductive CityLookup :=
| CityOwn (c : City)
| CityInherited (key : string)
| CityUndefined.

Definition cities_get (key : option string) : CityLookup :=
  let k := Js.to_string key in
  match list_find (λ p : string * City, p.1 = k) cities with
  | Some (_, (_, c)) => CityOwn c
  | None =>
      if decide (k ∈ Js.object_prototype_keys) then CityInherited k
      else CityUndefined
  end.

(** The [hourly] record of a forecast response: parallel arrays. *)
Record Hourly := {
  time : list string;
  temperature_2m : list Value;
  precipitation : list Value;
  relative_humidity_2m : list Value;
  wind_speed_10m : list Value;
  weather_code : list Value;
}.

(** A parsed response body; [hourly] may be missing from it. *)
Record WeatherData := { hourly : option Hourly }.

(** A point [{x: ..., y: ...}] of a dataset. *)
Record Point := { pt_x : option string; pt_y : Value }.

(** What [drawChart] hands to [new Chart]: the labels, the [data] of the
    four datasets and the position of the annotation line. *)
Record Chart := {
  labels : list string;
  pastTemperature : list Point;
  futureTemperature : list Point;
  pastPrecipitation : list Point;
  futurePrecipitation : list Point;
  currentTime : option string;
}.

(** The query of the forecast request. *)
Record Request := {
  latitude : string;
  longitude : string;
  past_hours : Z;
  forecast_hours : Z;
}.

Inductive Error :=
| TypeError (what : string)          (* a property of null or undefined *)
| StorageException (what : string)   (* localStorage refused *)
| FetchRejected                      (* the promise of fetch rejected *)
| ApiRequestFailed                   (* new Error('Weather API request failed') *)
| JsonRejected.                      (* the promise of response.json() rejected *)

(** [localStorage]: [StoreDenied] refuses every access, [StoreFull] refuses
    writes. *)
Inductive StoreStatus := StoreOk | StoreFull | StoreDenied.

Record LocalStorage := {
  ls_status : StoreStatus;
  ls_items : gmap string string;
}.

(** The click listeners [setupEventListeners] registers. *)
Inductive Listener :=
| OnToggleCityDropdown
| OnSelectCity (option_ : nat)
| OnSetTimeRange (hours : Z)
| OnRetry.

Inductive TimerCallback :=
| FocusFirst          (* () => this.focusElement(0), once *)
| AutoRefresh.        (* the body of the interval *)

(** Calls on the outside world that are recorded and not interpreted. *)
Inductive Effect :=
| Blur (el : nat)
| Focus (el : nat)
| ScrollIntoView (el : nat)
| Click (el : nat)
| PreventDefault
| ConsoleLog (msg : string)
| ConsoleWarn (msg : string) (e : Error)
| ConsoleError (msg : string) (e : Error)
| Fetch (req : Request)
| ChartDestroy
| ChartCreate
| Uncaught (e : Error).   (* reported by the browser: listener or promise *)

(** The fields of [this]. *)
Record App := {
  currentCity : option string;
  currentTimeRange : Z;
  focusableElements : list nat;
  currentFocusIndex : Z;
  isDropdownOpen : bool;
  weatherData : option WeatherData;
  chart : option Chart;
  autoRefreshInterval : option nat;
}.

Record Browser := {
  elements : list Element;
  listeners : list (nat * Listener);
  keydownListener : bool;
  timers : list (nat * (bool * TimerCallback));   (* id, repeating, callback *)
  nextTimer : nat;
  localStorage : LocalStorage;
  pendingFetch : nat;           (* requests sent and not settled *)
  pendingJson : nat;            (* bodies being read *)
  appGlobal : bool;             (* the global [app] has been assigned *)
  effects : list Effect;
}.

Record World := { app : App; browser : Browser }.

(** ** Field updates *)

Definition set_currentCity (v : option string) (a : App) : App :=
  {| currentCity := v; currentTimeRange := currentTimeRange a;
     focusableElements := focusableElements a;
     currentFocusIndex := currentFocusIndex a;
     isDropdownOpen := isDropdownOpen a; weatherData := weatherData a;
     chart := chart a; autoRefreshInterval := autoRefreshInterval a |}.

Definition set_currentTimeRange (v : Z) (a : App) : App :=
  {| currentCity := currentCity a; currentTimeRange := v;
     focusableElements := focusableElements a;
     currentFocusIndex := currentFocusIndex a;
     isDropdownOpen := isDropdownOpen a; weatherData := weatherData a;
     chart := chart a; autoRefreshInterval := autoRefreshInterval a |}.

Definition set_focusableElements (v : list nat) (a : App) : App :=
  {| currentCity := currentCity a; currentTimeRange := currentTimeRange a;
     focusableElements := v;
     currentFocusIndex := currentFocusIndex a;
     isDropdownOpen := isDropdownOpen a; weatherData := weatherData a;
     chart := chart a; autoRefreshInterval := autoRefreshInterval a |}.

Definition set_currentFocusIndex (v : Z) (a : App) : App :=
  {| currentCity := currentCity a; currentTimeRange := currentTimeRange a;
     focusableElements := focusableElements a;
     currentFocusIndex := v;
     isDropdownOpen := isDropdownOpen a; weatherData := weatherData a;
     chart := chart a; autoRefreshInterval := autoRefreshInterval a |}.

Definition set_isDropdownOpen (v : bool) (a : App) : App :=
  {| currentCity := currentCity a; currentTimeRange := currentTimeRange a;
     focusableElements := focusableElements a;
     currentFocusIndex := currentFocusIndex a;
     isDropdownOpen := v; weatherData := weatherData a;
     chart := chart a; autoRefreshInterval := autoRefreshInterval a |}.

Definition set_weatherData (v : option WeatherData) (a : App) : App :=
  {| currentCity := currentCity a; currentTimeRange := currentTimeRange a;
     focusableElements := focusableElements a;
     currentFocusIndex := currentFocusIndex a;
     isDropdownOpen := isDropdownOpen a; weatherData := v;
     chart := chart a; autoRefreshInterval := autoRefreshInterval a |}.

Definition set_chart (v : option Chart) (a : App) : App :=
  {| currentCity := currentCity a; currentTimeRange := currentTimeRange a;
     focusableElements := focusableElements a;
     currentFocusIndex := currentFocusIndex a;
     isDropdownOpen := isDropdownOpen a; weatherData := weatherData a;
     chart := v; autoRefreshInterval := autoRefreshInterval a |}.

Definition set_autoRefreshInterval (v : option nat) (a : App) : App :=
  {| currentCity := currentCity a; currentTimeRange := currentTimeRange a;
     focusableElements := focusableElements a;
     currentFocusIndex := currentFocusIndex a;
     isDropdownOpen := isDropdownOpen a; weatherData := weatherData a;
     chart := chart a; autoRefreshInterval := v |}.

Definition set_elements (v : list Element) (b : Browser) : Browser :=
  {| elements := v; listeners := listeners b;
     keydownListener := keydownListener b; timers := timers b;
     nextTimer := nextTimer b; localStorage := localStorage b;
     pendingFetch := pendingFetch b; pendingJson := pendingJson b;
     appGlobal := appGlobal b; effects := effects b |}.

Definition set_listeners (v : list (nat * Listener)) (b : Browser) : Browser :=
  {| elements := elements b; listeners := v;
     keydownListener := keydownListener b; timers := timers b;
     nextTimer := nextTimer b; localStorage := localStorage b;
     pendingFetch := pendingFetch b; pendingJson := pendingJson b;
     appGlobal := appGlobal b; effects := effects b |}.

Definition set_keydownListener (v : bool) (b : Browser) : Browser :=
  {| elements := elements b; listeners := listeners b;
     keydownListener := v; timers := timers b;
     nextTimer := nextTimer b; localStorage := localStorage b;
     pendingFetch := pendingFetch b; pendingJson := pendingJson b;
     appGlobal := appGlobal b; effects := effects b |}.

Definition set_timers (v : list (nat * (bool * TimerCallback))) (next : nat)
    (b : Browser) : Browser :=
  {| elements := elements b; listeners := listeners b;
     keydownListener := keydownListener b; timers := v;
     nextTimer := next; localStorage := localStorage b;
     pendingFetch := pendingFetch b; pendingJson := pendingJson b;
     appGlobal := appGlobal b; effects := effects b |}.

Definition set_localStorage (v : LocalStorage) (b : Browser) : Browser :=
  {| elements := elements b; listeners := listeners b;
     keydownListener := keydownListener b; timers := timers b;
     nextTimer := nextTimer b; localStorage := v;
     pendingFetch := pendingFetch b; pendingJson := pendingJson b;
     appGlobal := appGlobal b; effects := effects b |}.

Definition set_pending (fetches jsons : nat) (b : Browser) : Browser :=
  {| elements := elements b; listeners := listeners b;
     keydownListener := keydownListener b; timers := timers b;
     nextTimer := nextTimer b; localStorage := localStorage b;
     pendingFetch := fetches; pendingJson := jsons;
     appGlobal := appGlobal b; effects := effects b |}.

Definition set_appGlobal (v : bool) (b : Browser) : Browser :=
  {| elements := elements b; listeners := listeners b;
     keydownListener := keydownListener b; timers := timers b;
     nextTimer := nextTimer b; localStorage := localStorage b;
     pendingFetch := pendingFetch b; pendingJson := pendingJson b;
     appGlobal := v; effects := effects b |}.

Definition add_effect (e : Effect) (b : Browser) : Browser :=
  {| elements := elements b; listeners := listeners b;
     keydownListener := keydownListener b; timers := timers b;
     nextTimer := nextTimer b; localStorage := localStorage b;
     pendingFetch := pendingFetch b; pendingJson := pendingJson b;
     appGlobal := appGlobal b; effects := effects b ++ [e] |}.

(** ** The monad of methods *)

Inductive Outcome (A : Type) :=
| Returned (a : A)
| Thrown (e : Error).
Arguments Returned {A} a.
Arguments Thrown {A} e.

Definition M (A : Type) : Type := World → Outcome A * World.

Definition ret {A} (a : A) : M A := λ w, (Returned a, w).

Definition throw {A} (e : Error) : M A := λ w, (Thrown e, w).

Definition bind {A B} (m : M A) (k : A → M B) : M B :=
  λ w, match m w with
       | (Returned a, w') => k a w'
       | (Thrown e, w') => (Thrown e, w')
       end.

(** [try { body } catch (e) { handler }] *)
Definition try_catch {A} (body : M A) (handler : Error → M A) : M A :=
  λ w, match body w with
       | (Returned a, w') => (Returned a, w')
       | (Thrown e, w') => handler e w'
       end.

Notation "x <- m ;; k" := (bind m (λ x, k))
  (at level 100, m at next level, right associativity).
Notation "m ;; k" := (bind m (λ _, k))
  (at level 100, right associativity).

Definition this {A} (f : App → A) : M A := λ w, (Returned (f (app w)), w).

Definition assign (f : App → App) : M unit :=
  λ w, (Returned tt, {| app := f (app w); browser := browser w |}).

Definition ask {A} (f : Browser → A) : M A :=
  λ w, (Returned (f (browser w)), w).

Definition tell (f : Browser → Browser) : M unit :=
  λ w, (Returned tt, {| app := app w; browser := f (browser w) |}).

Definition effect (e : Effect) : M unit := tell (add_effect e).

(** [arr.forEach(f)] *)
Fixpoint forEach {A} (arr : list A) (f : A → M unit) : M unit :=
  match arr with
  | [] => ret tt
  | a :: rest => f a ;; forEach rest f
  end.

(** [n] calls of a method in a row; a throw ends the run. *)
Fixpoint times (n : nat) (m : M unit) : M unit :=
  match n with
  | O => ret tt
  | S n' => m ;; times n' m
  end.

(** Using a value that may be [null] or [undefined] as an object. *)
Definition deref {A} (what : string) (v : option A) : M A :=
  match v with
  | Some a => ret a
  | None => throw (TypeError what)
  end.

(** What the browser does with an exception that leaves a listener, a
    timer callback or an async function: report it and go on. *)
Definition reported (m : M unit) : M unit :=
  try_catch m (λ e, effect (Uncaught e)).

(** ** The document *)

Fixpoint ancestors (doc : list Element) (fuel : nat) (n : nat) : list nat :=
  match fuel with
  | O => []
  | S fuel' =>
      match doc !! n ≫= el_parent with
      | Some p => p :: ancestors doc fuel' p
      | None => []
      end
  end.

Definition inside (doc : list Element) (root n : nat) : bool :=
  bool_decide (root ∈ ancestors doc (length doc) n).

(** The positions, in document order and counted from [i], of the elements
    of [doc] that satisfy [p]. *)
Fixpoint positions (p : nat → Element → bool) (i : nat) (doc : list Element)
    : list nat :=
  match doc with
  | [] => []
  | e :: rest =>
      if p i e then i :: positions p (S i) rest else positions p (S i) rest
  end.

Definition has_id (id : string) (e : Element) : Prop :=
  el_attached e = true ∧ el_id e = Some id.

#[global] Instance has_id_dec id e : Decision (has_id id e).
Proof. unfold has_id. apply _. Defined.

Definition getElementById (id : string) : M (option nat) :=
  ask (λ b, fst <$> list_find (has_id id) (elements b)).

(** [document.querySelectorAll('.' + cls)] *)
Definition querySelectorAll (cls : string) : M (list nat) :=
  ask (λ b, positions (λ _ e, el_attached e && bool_decide (cls ∈ el_classes e))
              0 (elements b)).

(** [root.querySelector(tag)] *)
Definition querySelector (root : nat) (tag : string) : M (option nat) :=
  ask (λ b, head (positions
                    (λ i e, inside (elements b) root i
                            && bool_decide (el_tag e = tag))
                    0 (elements b))).

Definition update_element (el : nat) (f : Element → Element) : M unit :=
  tell (λ b, set_elements (alter f el (elements b)) b).

Definition classList_add (el : nat) (token : string) : M unit :=
  update_element el (λ e,
    if decide (token ∈ el_classes e) then e
    else with_classes (el_classes e ++ [token]) e).

Definition classList_remove (el : nat) (token : string) : M unit :=
  update_element el (λ e,
    with_classes (filter (λ c, c ≠ token) (el_classes e)) e).

(** [el.classList.toggle(token, force)] *)
Definition classList_toggle (el : nat) (token : string) (force : bool)
    : M unit :=
  if force then classList_add el token else classList_remove el token.

(** [el.className = ...], given as the list of tokens. *)
Definition set_className (el : nat) (tokens : list string) : M unit :=
  update_element el (with_classes tokens).

(** [el.textContent = t] and [el.innerHTML = t]: the text is replaced and
    whatever was inside [el] leaves the document. *)
Definition set_textContent (el : nat) (t : Text) : M unit :=
  tell (λ b,
    let doc := elements b in
    set_elements
      (imap (λ i e, if decide (i = el) then with_text t e
                    else if inside doc el i then removed_from el e
                    else e) doc) b).

(** [el.getContext('2d')]: only a canvas has the method; the context it
    yields is handed to the chart library and not looked at. *)
Definition getContext (el : nat) : M unit :=
  tag <- ask (λ b, el_tag <$> elements b !! el) ;;
  if decide (tag = Some "canvas") then ret tt
  else throw (TypeError "getContext").

Definition dataset_city (el : nat) : M (option string) :=
  ask (λ b, elements b !! el ≫= el_city).

Definition addClickListener (el : nat) (l : Listener) : M unit :=
  tell (λ b, set_listeners (listeners b ++ [(el, l)]) b).

(** [setTimeout] and [setInterval]: the new timer's id is returned. *)
Definition setTimer (repeating : bool) (cb : TimerCallback) : M nat :=
  id <- ask nextTimer ;;
  tell (λ b, set_timers (timers b ++ [(id, (repeating, cb))]) (S id) b) ;;
  ret id.

Definition clearInterval (id : nat) : M unit :=
  tell (λ b, set_timers (filter (λ t, t.1 ≠ id) (timers b)) (nextTimer b) b).

(** [localStorage.getItem(key)] *)
Definition getItem (key : string) : M (option string) :=
  ls <- ask localStorage ;;
  match ls_status ls with
  | StoreDenied => throw (StorageException "SecurityError")
  | _ => ret (ls_items ls !! key)
  end.

(** [localStorage.setItem(key, value)] *)
Definition setItem (key value : string) : M unit :=
  ls <- ask localStorage ;;
  match ls_status ls with
  | StoreDenied => throw (StorageException "SecurityError")
  | StoreFull => throw (StorageException "QuotaExceededError")
  | StoreOk =>
      tell (set_localStorage
              {| ls_status := StoreOk; ls_items := <[key := value]> (ls_items ls) |})
  end.

(** ** The methods of [AppleTVWeatherApp] *)

(** The array is assigned twice in the source, once with the candidates
    and once filtered; nothing runs in between, so the candidates are
    local here and the field never holds a [null]. *)
Definition updateFocusableElements : M unit :=
  open <- this isDropdownOpen ;;
  candidates <-
    (if open then
       options <- querySelectorAll "city-option" ;;
       ret (Some <$> options)
     else
       citySelector <- getElementById "citySelector" ;;
       range24h <- getElementById "range24h" ;;
       range48h <- getElementById "range48h" ;;
       ret [citySelector; range24h; range48h]) ;;
  assign (set_focusableElements (omap id candidates)).

Definition focusElement (index : Z) : M unit :=
  els <- this focusableElements ;;
  if decide (length els = 0) then ret tt
  else
    forEach els (λ el, classList_remove el "focused" ;; effect (Blur el)) ;;
    assign (set_currentFocusIndex
              (Z.max 0 (Z.min index (Z.of_nat (length els) - 1)))) ;;
    i <- this currentFocusIndex ;;
    element <- deref "element" (Js.index els i) ;;
    classList_add element "focused" ;;
    effect (Focus element) ;;
    effect (ScrollIntoView element).

Definition focusNext : M unit :=
  i <- this currentFocusIndex ;;
  focusElement (i + 1).

Definition focusPrevious : M unit :=
  i <- this currentFocusIndex ;;
  focusElement (i - 1).

Definition toggleCityDropdown : M unit :=
  open <- this isDropdownOpen ;;
  assign (set_isDropdownOpen (negb open)) ;;
  dropdown <- getElementById "cityDropdown" ;;
  open' <- this isDropdownOpen ;;
  if open' then
    d <- deref "dropdown" dropdown ;;
    classList_add d "active" ;;
    updateFocusableElements ;;
    focusElement 0
  else
    d <- deref "dropdown" dropdown ;;
    classList_remove d "active" ;;
    updateFocusableElements ;;
    focusElement 0.

Definition closeDropdown : M unit :=
  open <- this isDropdownOpen ;;
  if open then
    assign (set_isDropdownOpen false) ;;
    dropdown <- getElementById "cityDropdown" ;;
    d <- deref "cityDropdown" dropdown ;;
    classList_remove d "active" ;;
    updateFocusableElements ;;
    focusElement 0
  else ret tt.

Definition saveCity (cityKey : option string) : M unit :=
  try_catch
    (setItem "appleTV_selectedCity" (Js.to_string cityKey))
    (λ e, effect (ConsoleWarn "Could not save city to localStorage:" e)).

Definition loadSavedCity : M (option string) :=
  try_catch
    (getItem "appleTV_selectedCity")
    (λ e, effect (ConsoleWarn "Could not load city from localStorage:" e) ;;
          ret None).

Definition showLoading (show : bool) : M unit :=
  overlay <- getElementById "loadingOverlay" ;;
  o <- deref "overlay" overlay ;;
  classList_toggle o "active" show.

Definition showError (message : Text) : M unit :=
  errorEl <- getElementById "errorMessage" ;;
  errorText <- getElementById "errorText" ;;
  t <- deref "errorText" errorText ;;
  set_textContent t message ;;
  e <- deref "errorEl" errorEl ;;
  classList_add e "active".

Definition hideError : M unit :=
  errorEl <- getElementById "errorMessage" ;;
  e <- deref "errorMessage" errorEl ;;
  classList_remove e "active".

(** [document.getElementById(id).textContent = t] *)
Definition setText (id : string) (t : Text) : M unit :=
  target <- getElementById id ;;
  el <- deref id target ;;
  set_textContent el t.

(** [v === 0]: [null] is not 0. *)
Definition is_zero (v : Value) : bool :=
  match v with
  | Num q => Qeq_bool q 0
  | Null => false
  end.

(** [v <= bound]: [null] is compared as the number 0. *)
Definition at_most (v : Value) (bound : Q) : bool :=
  match v with
  | Num q => Qle_bool q bound
  | Null => Qle_bool 0 bound
  end.

Definition iconClass (weatherCode : option Value) : list string :=
  match weatherCode with
  | None => ["fas"; "fa-bolt"]        (* every test on undefined is false *)
  | Some code =>
      if is_zero code then ["fas"; "fa-sun"]
      else if at_most code (3 # 1) then ["fas"; "fa-cloud-sun"]
      else if at_most code (48 # 1) then ["fas"; "fa-cloud"]
      else if at_most code (67 # 1) then ["fas"; "fa-cloud-rain"]
      else if at_most code (77 # 1) then ["fas"; "fa-snowflake"]
      else if at_most code (82 # 1) then ["fas"; "fa-cloud-showers-heavy"]
      else ["fas"; "fa-bolt"]
  end.

Definition updateWeatherIcon (weatherCode : option Value) : M unit :=
  weatherIcon <- getElementById "weatherIcon" ;;
  holder <- deref "weatherIcon" weatherIcon ;;
  iconElement <- querySelector holder "i" ;;
  i <- deref "iconElement" iconElement ;;
  set_className i (iconClass weatherCode).

(** The five values [updateCurrentWeather] reads from the response. *)
Record CurrentWeather := {
  currentTemp : option Value;
  currentHumidity : option Value;
  currentWindSpeed : option Value;
  currentPrecipitation : option Value;
  weatherCode : option Value;
}.

Definition readCurrentWeather (hourly : Hourly) : CurrentWeather :=
  let currentIndex := 24%Z in
  {| currentTemp := Js.index (temperature_2m hourly) currentIndex;
     currentHumidity := Js.index (relative_humidity_2m hourly) currentIndex;
     currentWindSpeed := Js.index (wind_speed_10m hourly) currentIndex;
     currentPrecipitation := Js.index (precipitation hourly) currentIndex;
     weatherCode := Js.index (weather_code hourly) currentIndex |}.

Definition updateCurrentWeather (data : WeatherData) : M unit :=
  hourly <- deref "hourly" (hourly data) ;;
  let now := readCurrentWeather hourly in
  setText "currentTemp" (TCat (TRounded (currentTemp now)) (TLit "°C")) ;;
  setText "humidity" (TCat (TNumber (currentHumidity now)) (TLit "%")) ;;
  setText "windSpeed" (TCat (TNumber (currentWindSpeed now)) (TLit " m/s")) ;;
  setText "precipitation"
    (TCat (TNumber (currentPrecipitation now)) (TLit " mm")) ;;
  updateWeatherIcon (weatherCode now).

(** The clock is outside of the program: the formatted time is given. *)
Definition updateLastUpdateTime (timeString : string) : M unit :=
  setText "lastUpdate" (TCat (TLit "最終更新: ") (TLit timeString)).

(** [arr.map((v, i) => ({ x: xs[i], y: v }))] *)
Definition points (xs : list string) (arr : list Value) : list Point :=
  imap (λ i v, {| pt_x := xs !! i; pt_y := v |}) arr.

(** The part of [drawChart] that computes, from the response and the
    selected range, what is drawn. *)
Definition chartData (hourly : Hourly) (currentTimeRange : Z) : Chart :=
  let times := time hourly in
  let temps := temperature_2m hourly in
  let precip := precipitation hourly in
  let currentIndex := 24%Z in
  let pastTimes := Js.slice times 0 (currentIndex + 1) in
  let futureTimes :=
    Js.slice times currentIndex (currentIndex + currentTimeRange + 1) in
  let pastTemps := Js.slice temps 0 (currentIndex + 1) in
  let futureTemps :=
    Js.slice temps currentIndex (currentIndex + currentTimeRange + 1) in
  let pastPrecip := Js.slice precip 0 (currentIndex + 1) in
  let futurePrecip :=
    Js.slice precip currentIndex (currentIndex + currentTimeRange + 1) in
  let allTimes := pastTimes ++ Js.slice_from futureTimes 1 in
  {| labels := allTimes;
     pastTemperature := points pastTimes pastTemps;
     futureTemperature := points futureTimes futureTemps;
     pastPrecipitation := points pastTimes pastPrecip;
     futurePrecipitation := points futureTimes futurePrecip;
     currentTime := Js.index times currentIndex |}.

Definition drawChart : M unit :=
  data <- this weatherData ;;
  d <- deref "weatherData" data ;;
  hourly <- deref "hourly" (hourly d) ;;
  range <- this currentTimeRange ;;
  let config := chartData hourly range in
  old <- this chart ;;
  (if old is Some _ then effect ChartDestroy else ret tt) ;;
  canvas <- getElementById "mainChart" ;;
  c <- deref "mainChart" canvas ;;
  getContext c ;;
  effect ChartCreate ;;
  assign (set_chart (Some config)).

Definition setTimeRange (hours : Z) : M unit :=
  assign (set_currentTimeRange hours) ;;
  range24h <- getElementById "range24h" ;;
  a <- deref "range24h" range24h ;;
  classList_toggle a "active" (hours =? 24)%Z ;;
  range48h <- getElementById "range48h" ;;
  b <- deref "range48h" range48h ;;
  classList_toggle b "active" (hours =? 48)%Z ;;
  data <- this weatherData ;;
  if data is Some _ then drawChart else ret tt.

(** The [catch] block of [loadWeatherData]. *)
Definition loadWeatherData_catch (error : Error) : M unit :=
  effect (ConsoleError "Error loading weather data:" error) ;;
  showError (TLit "天気データの取得に失敗しました。<br>インターネット接続を確認してください。") ;;
  showLoading false.

(** [loadWeatherData] up to [await fetch(...)].  An exception that leaves
    an async function rejects its promise, which nobody handles. *)
Definition loadWeatherData : M unit :=
  reported (
    key <- this currentCity ;;
    let city := cities_get key in
    showLoading true ;;
    hideError ;;
    try_catch
      (position <-
         match city with
         | CityOwn c => ret (lat c, lon c)
         | CityInherited _ => ret ("undefined", "undefined")
         | CityUndefined => throw (TypeError "city")
         end ;;
       range <- this currentTimeRange ;;
       effect (Fetch {| latitude := position.1; longitude := position.2;
                        past_hours := 24; forecast_hours := range |}) ;;
       tell (λ b, set_pending (S (pendingFetch b)) (pendingJson b) b))
      loadWeatherData_catch).

(** How the request ends: rejected, or with a response that is [ok] or
    not. *)
Inductive FetchResult :=
| FetchFailed
| FetchResponse (ok : bool).

(** From the first [await] to [await response.json()]. *)
Definition loadWeatherData_response (r : FetchResult) : M unit :=
  reported (
    try_catch
      match r with
      | FetchFailed => throw FetchRejected
      | FetchResponse ok =>
          if negb ok then throw ApiRequestFailed
          else tell (λ b, set_pending (pendingFetch b) (S (pendingJson b)) b)
      end
      loadWeatherData_catch).

(** From the second [await] to the end; [body] is [None] when the body
    could not be read. *)
Definition loadWeatherData_data (body : option WeatherData)
    (timeString : string) : M unit :=
  reported (
    try_catch
      match body with
      | None => throw JsonRejected
      | Some data =>
          assign (set_weatherData (Some data)) ;;
          updateCurrentWeather data ;;
          drawChart ;;
          updateLastUpdateTime timeString ;;
          showLoading false
      end
      loadWeatherData_catch).

(** [document.getElementById('selectedCity').textContent =
     this.cities[key].name] *)
Definition showSelectedCity (key : option string) : M unit :=
  text <-
    match cities_get key with
    | CityOwn c => ret (TLit (name c))
    | CityInherited k => ret (TInheritedName k)
    | CityUndefined => throw (TypeError "this.cities[...]")
    end ;;
  setText "selectedCity" text.

Definition selectCity (cityKey : option string) : M unit :=
  assign (set_currentCity cityKey) ;;
  saveCity cityKey ;;
  showSelectedCity cityKey ;;
  closeDropdown ;;
  loadWeatherData.

Definition startAutoRefresh : M unit :=
  id <- setTimer true AutoRefresh ;;
  assign (set_autoRefreshInterval (Some id)).

Definition stopAutoRefresh : M unit :=
  interval <- this autoRefreshInterval ;;
  match interval with
  | Some id =>
      if decide (id = 0) then ret tt
      else clearInterval id ;; assign (set_autoRefreshInterval None)
  | None => ret tt
  end.

Definition setupEventListeners : M unit :=
  tell (set_keydownListener true) ;;
  citySelector <- getElementById "citySelector" ;;
  s <- deref "citySelector" citySelector ;;
  addClickListener s OnToggleCityDropdown ;;
  options <- querySelectorAll "city-option" ;;
  forEach options (λ option_, addClickListener option_ (OnSelectCity option_)) ;;
  range24h <- getElementById "range24h" ;;
  a <- deref "range24h" range24h ;;
  addClickListener a (OnSetTimeRange 24) ;;
  range48h <- getElementById "range48h" ;;
  b <- deref "range48h" range48h ;;
  addClickListener b (OnSetTimeRange 48) ;;
  retryBtn <- getElementById "retryBtn" ;;
  r <- deref "retryBtn" retryBtn ;;
  addClickListener r OnRetry ;;
  _ <- setTimer false FocusFirst ;;
  ret tt.

Definition init : M unit :=
  effect (ConsoleLog "🍎 Initializing Apple TV Weather App...") ;;
  setupEventListeners ;;
  updateFocusableElements ;;
  loadWeatherData ;;
  startAutoRefresh ;;
  key <- this currentCity ;;
  showSelectedCity key ;;
  effect (ConsoleLog "✅ App initialized successfully").

Definition constructor : M unit :=
  saved <- loadSavedCity ;;
  assign (set_currentCity (Some (Js.or_default saved "tokyo"))) ;;
  assign (set_currentTimeRange 24) ;;
  assign (set_focusableElements []) ;;
  assign (set_currentFocusIndex 0) ;;
  assign (set_isDropdownOpen false) ;;
  assign (set_weatherData None) ;;
  assign (set_chart None) ;;
  assign (set_autoRefreshInterval None) ;;
  init.

(** ** Listeners, keys and events *)

Definition run_listener (l : Listener) : M unit :=
  match l with
  | OnToggleCityDropdown => toggleCityDropdown
  | OnSelectCity option_ =>
      city <- dataset_city option_ ;;
      selectCity city
  | OnSetTimeRange hours => setTimeRange hours
  | OnRetry => loadWeatherData
  end.

(** A click event on [target]: nothing for a disabled control; otherwise
    the listeners of the target and of its ancestors run, innermost first
    and in the order of their registration, and an exception in one of
    them is reported without stopping the others. *)
Definition dispatch_click (target : nat) : M unit :=
  doc <- ask elements ;;
  match doc !! target with
  | None => ret tt
  | Some e =>
      if el_disabled e then ret tt
      else
        registered <- ask listeners ;;
        forEach (target :: ancestors doc (length doc) target) (λ node,
          forEach (filter (λ l, l.1 = node) registered) (λ l,
            reported (run_listener l.2)))
  end.

(** [element.click()] *)
Definition click (element : nat) : M unit :=
  effect (Click element) ;;
  dispatch_click element.

Definition activateFocusedElement : M unit :=
  els <- this focusableElements ;;
  i <- this currentFocusIndex ;;
  match Js.index els i with
  | Some element => click element
  | None => ret tt
  end.

Definition handleKeyDown (key : string) : M unit :=
  (if decide (key ∈ ["ArrowUp"; "ArrowDown"; "ArrowLeft"; "ArrowRight";
                     "Enter"; " "])
   then effect PreventDefault else ret tt) ;;
  if decide (key = "ArrowRight" ∨ key = "ArrowDown") then focusNext
  else if decide (key = "ArrowLeft" ∨ key = "ArrowUp") then focusPrevious
  else if decide (key = "Enter" ∨ key = " ") then activateFocusedElement
  else if decide (key = "Escape" ∨ key = "Backspace") then closeDropdown
  else ret tt.

Definition run_timer (cb : TimerCallback) : M unit :=
  match cb with
  | FocusFirst => focusElement 0
  | AutoRefresh =>
      effect (ConsoleLog "🔄 Auto-refreshing weather data...") ;;
      loadWeatherData
  end.

(** What the browser can deliver once the page is loaded. *)
Inductive Event :=
| KeyDown (key : string)
| PointerClick (target : nat)
| TimerFired (id : nat)
| FetchSettled (r : FetchResult)
| JsonSettled (body : option WeatherData) (timeString : string)
| BeforeUnload.

Definition deliver (ev : Event) : M unit :=
  match ev with
  | KeyDown key =>
      bound <- ask keydownListener ;;
      if bound then reported (handleKeyDown key) else ret tt
  | PointerClick target =>
      doc <- ask elements ;;
      match doc !! target with
      | Some e =>
          if el_attached e && negb (el_hidden e) then dispatch_click target
          else ret tt
      | None => ret tt
      end
  | TimerFired id =>
      pending <- ask timers ;;
      match list_find (λ t, t.1 = id) pending with
      | Some (_, (_, (repeating, cb))) =>
          (if repeating then ret tt
           else tell (λ b, set_timers (filter (λ t, t.1 ≠ id) (timers b))
                             (nextTimer b) b)) ;;
          reported (run_timer cb)
      | None => ret tt
      end
  | FetchSettled r =>
      n <- ask pendingFetch ;;
      match n with
      | O => ret tt
      | S n' =>
          tell (λ b, set_pending n' (pendingJson b) b) ;;
          loadWeatherData_response r
      end
  | JsonSettled body timeString =>
      n <- ask pendingJson ;;
      match n with
      | O => ret tt
      | S n' =>
          tell (λ b, set_pending (pendingFetch b) n' b) ;;
          loadWeatherData_data body timeString
      end
  | BeforeUnload =>
      assigned <- ask appGlobal ;;
      if assigned then reported stopAutoRefresh else ret tt
  end.

(** The [DOMContentLoaded] listener: [app = new AppleTVWeatherApp()]. *)
Definition domContentLoaded : M unit :=
  reported (constructor ;; tell (set_appGlobal true)).

(** The page before any script has run. *)
Definition page (doc : list Element) (store : LocalStorage) : World :=
  {| app := {| currentCity := None; currentTimeRange := 0;
               focusableElements := []; currentFocusIndex := 0;
               isDropdownOpen := false; weatherData := None;
               chart := None; autoRefreshInterval := None |};
     browser := {| elements := doc; listeners := [];
                   keydownListener := false; timers := []; nextTimer := 1;
                   localStorage := store; pendingFetch := 0;
                   pendingJson := 0; appGlobal := false; effects := [] |} |}.

(** The world a method leaves behind. *)
Definition after {A} (m : M A) (w : World) : World := (m w).2.

(** The value a method returns, if it returns. *)
Definition result {A} (m : M A) (w : World) : Outcome A := (m w).1.

Definition run (evs : list Event) (w : World) : World :=
  foldl (λ w ev, after (deliver ev) w) w evs.

(** The world after the page has loaded and [evs] have been delivered. *)
Definition session (doc : list Element) (store : LocalStorage)
    (evs : list Event) : World :=
  run evs (after domContentLoaded (page doc store)).

(** ** The navigation state, in the vocabulary of the specification *)

Inductive NavigationMode := Normal | OverlayOpen.

Definition navigationMode (w : World) : NavigationMode :=
  if isDropdownOpen (app w) then OverlayOpen else Normal.

Definition focusSet (w : World) : list nat := focusableElements (app w).

Definition focusIndex (w : World) : Z := currentFocusIndex (app w).

(** The index is a position of the set, unless the set is empty. *)
Definition index_in_range (w : World) : Prop :=
  focusSet w ≠ [] →
  (0 ≤ focusIndex w ≤ Z.of_nat (length (focusSet w)) - 1)%Z.

(** The navigation commands, as the methods that implement them. *)
Inductive Command :=
| MoveNext
| MovePrevious
| ActivateCurrent
| SetMode          (* switch to the other mode *)
| CloseOverlay.

Definition command (c : Command) : M unit :=
  match c with
  | MoveNext => focusNext
  | MovePrevious => focusPrevious
  | ActivateCurrent => activateFocusedElement
  | SetMode => toggleCityDropdown
  | CloseOverlay => closeDropdown
  end.

(** An element a user can act on. *)
Definition interactable (e : Element) : Prop :=
  el_attached e = true ∧ el_disabled e = false ∧ el_hidden e = false.

(** ** A sample page *)

Definition element (id : option string) (tag : string) (parent : option nat)
    (classes : list string) (city : option string) : Element :=
  {| el_id := id; el_tag := tag; el_parent := parent; el_attached := true;
     el_classes := classes; el_city := city; el_disabled := false;
     el_hidden := false; el_text := TLit "" |}.

(** The elements the program looks up, without any city option. *)
Definition chrome : list Element :=
  [ element (Some "citySelector") "button" None [] None;
    element (Some "selectedCity") "span" (Some 0) [] None;
    element (Some "cityDropdown") "div" None [] None;
    element (Some "range24h") "button" None ["active"] None;
    element (Some "range48h") "button" None [] None;
    element (Some "retryBtn") "button" None [] None;
    element (Some "loadingOverlay") "div" None [] None;
    element (Some "errorMessage") "div" None [] None;
    element (Some "errorText") "p" (Some 7) [] None;
    element (Some "weatherIcon") "div" None [] None;
    element None "i" (Some 9) ["fas"; "fa-sun"] None;
    element (Some "currentTemp") "div" None [] None;
    element (Some "humidity") "span" None [] None;
    element (Some "windSpeed") "span" None [] None;
    element (Some "precipitation") "span" None [] None;
    element (Some "lastUpdate") "div" None [] None;
    element (Some "mainChart") "canvas" None [] None ].

Definition city_option (city : string) : Element :=
  element None "div" (Some 2) ["city-option"] (Some city).

(** The same page with three city options in the dropdown. *)
Definition sample_page : list Element :=
  chrome ++ [city_option "tokyo"; city_option "osaka"; city_option "kyoto"].

Definition empty_store : LocalStorage :=
  {| ls_status := StoreOk; ls_items := ∅ |}.

Definition denied_store : LocalStorage :=
  {| ls_status := StoreDenied; ls_items := ∅ |}.

(** The sample page, loaded; the focus is on the city selector. *)
Definition loaded_world : World := session sample_page empty_store [].

(** The sample page with the overlay open and the focus on its second
    option. *)
Definition overlay_world : World :=
  session sample_page empty_store [KeyDown "Enter"; KeyDown "ArrowRight"].

(** The page without city options, with the focus moved to the last of
    the three controls. *)
Definition last_control_world : World :=
  session chrome empty_store [KeyDown "ArrowRight"; KeyDown "ArrowRight"].

(** The sample page with its 24h button disabled. *)
Definition disabled_page : list Element :=
  alter (λ e, {| el_id := el_id e; el_tag := el_tag e;
                 el_parent := el_parent e; el_attached := el_attached e;
                 el_classes := el_classes e; el_city := el_city e;
                 el_disabled := true; el_hidden := el_hidden e;
                 el_text := el_text e |}) 3 sample_page.

(** A page that declares the 48h button before the other controls. *)
Definition reordered_page : list Element :=
  [ element (Some "range48h") "button" None [] None;
    element (Some "citySelector") "button" None [] None;
    element (Some "selectedCity") "span" (Some 1) [] None;
    element (Some "cityDropdown") "div" None [] None;
    element (Some "range24h") "button" None ["active"] None;
    element (Some "retryBtn") "button" None [] None;
    element (Some "loadingOverlay") "div" None [] None;
    element (Some "errorMessage") "div" None [] None;
    element (Some "errorText") "p" (Some 7) [] None;
    element (Some "weatherIcon") "div" None [] None;
    element None "i" (Some 9) ["fas"; "fa-sun"] None;
    element (Some "currentTemp") "div" None [] None;
    element (Some "humidity") "span" None [] None;
    element (Some "windSpeed") "span" None [] None;
    element (Some "precipitation") "span" None [] None;
    element (Some "lastUpdate") "div" None [] None;
    element (Some "mainChart") "canvas" None [] None ].

(** A response of 26 hours: the hour [n] is named by the [n]-th letter
    and has the temperature [n]. *)
Definition sample_hourly : Hourly :=
  {| time := (λ n, String (Ascii.ascii_of_nat (97 + n)) EmptyString) <$> seq 0 26;
     temperature_2m := (λ n, Num (inject_Z (Z.of_nat n))) <$> seq 0 26;
     precipitation := (λ n, Num (inject_Z 0)) <$> seq 0 26;
     relative_humidity_2m := (λ n, Num (inject_Z 50)) <$> seq 0 26;
     wind_speed_10m := (λ n, Num (inject_Z 3)) <$> seq 0 26;
     weather_code := (λ n, Num (inject_Z 2)) <$> seq 0 26 |}.

(** ** Vocabulary of the proofs *)

(** [m] relates every world to the world it leaves behind, whether it
    returns or throws. *)
Definition preserves {A} (R : relation World) (m : M A) : Prop :=
  ∀ w, R w (after m w).

(** The observation [obs] of the fields of [this] is unchanged. *)
Definition keeps {B} (obs : App → B) : relation World :=
  λ w w', obs (app w') = obs (app w).

(** The three fields the navigation lives in. *)
Definition navigation (a : App) : bool * list nat * Z :=
  (isDropdownOpen a, focusableElements a, currentFocusIndex a).

(** The two fields the range of the index depends on. *)
Definition focus (a : App) : list nat * Z :=
  (focusableElements a, currentFocusIndex a).

Definition in_range_step : relation World :=
  λ w w', index_in_range w → index_in_range w'.

(** An index that is 0 is still 0 afterwards. *)
Definition stays_zero : relation World :=
  λ w w', focusIndex w = 0%Z → focusIndex w' = 0%Z.

(** The index [focusElement] settles on. *)
Definition clamp (index : Z) (len : nat) : Z :=
  Z.max 0 (Z.min index (Z.of_nat len - 1)).

(** The steps of a data refresh: the tick of the interval, the arrival
    of the response, the arrival of its body. *)
Inductive RefreshStep :=
| Tick
| Response (r : FetchResult)
| Body (body : option WeatherData) (timeString : string).

Definition refresh (s : RefreshStep) : M unit :=
  match s with
  | Tick => run_timer AutoRefresh
  | Response r => loadWeatherData_response r
  | Body body timeString => loadWeatherData_data body timeString
  end.

(** The events that belong to a data refresh: the interval firing, a
    response arriving, a body arriving. *)
Definition is_refresh_event (w : World) (ev : Event) : bool :=
  match ev with
  | TimerFired id =>
      match list_find (λ t, t.1 = id) (timers (browser w)) with
      | Some (_, (_, (_, AutoRefresh))) => true
      | _ => false
      end
  | FetchSettled _ | JsonSettled _ _ => true
  | _ => false
  end.

(** The sample page after its first load has completed. *)
Definition sample_data : WeatherData := {| hourly := Some sample_hourly |}.

Definition refreshed_world : World :=
  session sample_page empty_store
    [FetchSettled (FetchResponse true); JsonSettled (Some sample_data) "12:00"].

(** The sample page with a [div] where the canvas of the chart should
    be, after the first response has arrived. *)
Definition div_chart_page : list Element :=
  <[16 := element (Some "mainChart") "div" None [] None]> sample_page.

Definition div_chart_world : World :=
  session div_chart_page empty_store
    [FetchSettled (FetchResponse true); JsonSettled (Some sample_data) "12:00"].

(** A store that holds a city the table does not know. *)
Definition paris_store : LocalStorage :=
  {| ls_status := StoreOk; ls_items := {["appleTV_selectedCity" := "paris"]} |}.

(** ** Vocabulary of the further properties *)

(** The keys [handleKeyDown] has a case for. *)
Definition handled_keys : list string :=
  ["ArrowRight"; "ArrowDown"; "ArrowLeft"; "ArrowUp"; "Enter"; " ";
   "Escape"; "Backspace"].

(** The class tokens of the element at [el]; none where there is no
    element. *)
Definition classes_in (b : Browser) (el : nat) : list string :=
  default [] (el_classes <$> elements b !! el).

Definition classes_at (w : World) (el : nat) : list string :=
  classes_in (browser w) el.

(** No element gains or loses the class token [token]. *)
Definition same_token (token : string) : relation Browser :=
  λ b b', ∀ el, token ∈ classes_in b' el ↔ token ∈ classes_in b el.

(** What [classList.toggle(token, force)] does to an element. *)
Definition toggled (token : string) (force : bool) (e : Element) : Element :=
  if force then
    (if decide (token ∈ el_classes e) then e
     else with_classes (el_classes e ++ [token]) e)
  else with_classes (filter (λ c, c ≠ token) (el_classes e)) e.


(** A relation between the browser before and the browser after. *)
Definition holds (Rb : relation Browser) : relation World :=
  λ w w', Rb (browser w) (browser w').

(** [m] throws from every world that satisfies [P]. *)
Definition fails {A} (P : World → Prop) (m : M A) : Prop :=
  ∀ w, P w → ∃ e, result m w = Thrown e.

(** The observation [obs] of the browser is unchanged. *)
Definition same {B} (obs : Browser → B) : relation Browser :=
  λ b b', obs b' = obs b.

(** No timer is added: the timers afterwards are among those before, in
    their order, and the next id is the same. *)
Definition no_new_timer : relation Browser :=
  λ b b', timers b' `sublist_of` timers b ∧ nextTimer b' = nextTimer b.

(** The store is touched under the key of the application only, and its
    status not at all. *)
Definition own_key_only : relation Browser :=
  λ b b', ls_status (localStorage b') = ls_status (localStorage b)
          ∧ ∀ key, key ≠ "appleTV_selectedCity" →
                   ls_items (localStorage b') !! key
                   = ls_items (localStorage b) !! key.

(** The saved or default city is not in the table of cities. *)
Definition unknown_city (w : World) : Prop :=
  cities_get (currentCity (app w)) = CityUndefined.

(** From a world that satisfies [P], [m] returns into [Q] or throws
    into [E]. *)
Definition triple {A} (P : World → Prop) (m : M A) (Q E : World → Prop)
    : Prop :=
  ∀ w, P w → match m w with
             | (Returned _, w') => Q w'
             | (Thrown _, w') => E w'
             end.

Definition timers_are (ts : list (nat * (bool * TimerCallback))) (next : nat)
    (w : World) : Prop :=
  timers (browser w) = ts ∧ nextTimer (browser w) = next.

(** The timers a start-up can leave behind. *)
Definition startup_timers (w : World) : Prop :=
  timers_are [] 1 w
  ∨ timers_are [(1, (false, FocusFirst))] 2 w
  ∨ timers_are [(1, (false, FocusFirst)); (2, (true, AutoRefresh))] 3 w.

(** The trace of calls is only ever extended. *)
Definition grows : relation Browser :=
  λ b b', effects b `prefix_of` effects b'.

(** The requests among the calls on the outside world. *)
Definition is_fetch (e : Effect) : bool :=
  match e with Fetch _ => true | _ => false end.

Definition requests (w : World) : list Effect :=
  filter (λ e, is_fetch e = true) (effects (browser w)).

(** The focus set of a mode on a page: the city options in document
    order while the overlay is open, otherwise what is found of the three
    controls, in the order of the source. *)
Definition focusSetOf (mode : NavigationMode) (doc : list Element)
    : list nat :=
  match mode with
  | OverlayOpen =>
      positions (λ _ e, el_attached e
                        && bool_decide ("city-option" ∈ el_classes e)) 0 doc
  | Normal =>
      omap id [ fst <$> list_find (has_id "citySelector") doc;
                fst <$> list_find (has_id "range24h") doc;
                fst <$> list_find (has_id "range48h") doc ]
  end.

(** The focus sets of the page are what they were. *)
Definition same_targets : relation Browser :=
  λ b b', ∀ mode, focusSetOf mode (elements b') = focusSetOf mode (elements b).

(** The sample page with the focus moved to the last of the three
    controls. *)
Definition third_control_world : World :=
  session sample_page empty_store [KeyDown "ArrowRight"; KeyDown "ArrowRight"].




(** * Proofs *)

(** ** The monad *)

Lemma bind_returned {A B} (m : M A) (k : A → M B) w a w1 :
  m w = (Returned a, w1) → (x <- m ;; k x) w = k a w1.
Proof. intros E. unfold bind. by rewrite E. Qed.

Lemma bind_thrown {A B} (m : M A) (k : A → M B) w e w1 :
  m w = (Thrown e, w1) → (x <- m ;; k x) w = (Thrown e, w1).
Proof. intros E. unfold bind. by rewrite E. Qed.

Lemma world_eta w : {| app := app w; browser := browser w |} = w.
Proof. by destruct w. Qed.

#[global] Instance keeps_preorder {B} (obs : App → B) : PreOrder (keeps obs).
Proof.
  split.
  - by intros w.
  - intros w1 w2 w3 H12 H23. unfold keeps in *. congruence.
Qed.

#[global] Instance in_range_step_preorder : PreOrder in_range_step.
Proof.
  split.
  - intros w H. exact H.
  - intros w1 w2 w3 H12 H23 H. by apply H23, H12.
Qed.

#[global] Instance stays_zero_preorder : PreOrder stays_zero.
Proof.
  split.
  - intros w H. exact H.
  - intros w1 w2 w3 H12 H23 H. by apply H23, H12.
Qed.

Section Combinators.
Context (R : relation World) `{!PreOrder R}.

Lemma preserves_ret {A} (a : A) : preserves R (ret a).
Proof. intros w. reflexivity. Qed.

Lemma preserves_throw {A} e : preserves R (@throw A e).
Proof. intros w. reflexivity. Qed.

Lemma preserves_bind {A B} (m : M A) (k : A → M B) :
  preserves R m → (∀ a, preserves R (k a)) → preserves R (x <- m ;; k x).
Proof.
  intros Hm Hk w. specialize (Hm w). unfold after, bind in *.
  destruct (m w) as [[a|e] w1]; simpl in *; [|done].
  etransitivity; [exact Hm|apply Hk].
Qed.

Lemma preserves_try_catch {A} (body : M A) handler :
  preserves R body → (∀ e, preserves R (handler e)) →
  preserves R (try_catch body handler).
Proof.
  intros Hm Hk w. specialize (Hm w). unfold after, try_catch in *.
  destruct (body w) as [[a|e] w1]; simpl in *; [done|].
  etransitivity; [exact Hm|apply Hk].
Qed.

Lemma preserves_deref {A} what (v : option A) : preserves R (deref what v).
Proof. destruct v; [apply preserves_ret|apply preserves_throw]. Qed.

Lemma preserves_forEach {A} (arr : list A) f :
  (∀ a, preserves R (f a)) → preserves R (forEach arr f).
Proof.
  intros Hf. induction arr as [|a arr IH]; simpl.
  - apply preserves_ret.
  - apply preserves_bind; auto.
Qed.

Lemma preserves_times n (m : M unit) :
  preserves R m → preserves R (times n m).
Proof.
  intros Hm. induction n as [|n IH]; simpl.
  - apply preserves_ret.
  - apply preserves_bind; auto.
Qed.

Lemma preserves_run evs :
  (∀ ev, preserves R (deliver ev)) → ∀ w, R w (run evs w).
Proof.
  intros Hd. unfold run. induction evs as [|ev evs IH]; intros w; simpl.
  - reflexivity.
  - etransitivity; [apply (Hd ev)|apply IH].
Qed.
End Combinators.

Lemma preserves_weaken {A} (R1 R2 : relation World) (m : M A) :
  (∀ w w', R1 w w' → R2 w w') → preserves R1 m → preserves R2 m.
Proof. intros H Hm w. apply H, Hm. Qed.

Lemma keeps_focus_in_range w w' : keeps focus w w' → in_range_step w w'.
Proof.
  unfold keeps, focus, in_range_step, index_in_range, focusSet, focusIndex.
  intros [= -> ->]. done.
Qed.

Lemma keeps_index_stays_zero w w' :
  keeps currentFocusIndex w w' → stays_zero w w'.
Proof. unfold keeps, stays_zero, focusIndex. by intros ->. Qed.

(** ** What leaves the fields of [this] alone *)

Section Frame.
Context {B : Type} (obs : App → B).

Lemma keeps_this {A} (f : App → A) : preserves (keeps obs) (this f).
Proof. by intros w. Qed.

Lemma keeps_ask {A} (f : Browser → A) : preserves (keeps obs) (ask f).
Proof. by intros w. Qed.

Lemma keeps_tell f : preserves (keeps obs) (tell f).
Proof. by intros w. Qed.

Lemma keeps_effect e : preserves (keeps obs) (effect e).
Proof. by intros w. Qed.

Lemma keeps_assign f :
  (∀ a, obs (f a) = obs a) → preserves (keeps obs) (assign f).
Proof. intros H w. apply H. Qed.
End Frame.

Create HintDb frame.

#[local] Hint Resolve keeps_this keeps_ask keeps_tell keeps_effect : frame.

(** One step of a frame proof: peel the combinator at the head. *)
Ltac frame_step :=
  first
    [ apply preserves_ret; apply _
    | apply preserves_throw; apply _
    | apply preserves_deref; apply _
    | apply preserves_bind; [apply _| |intros ?]
    | apply preserves_try_catch; [apply _| |intros ?]
    | apply preserves_forEach; [apply _|intros ?]
    | apply keeps_assign; solve [auto]
    | match goal with
      | |- preserves _ (match ?x with _ => _ end) => destruct x
      end
    | solve [auto with frame] ].

Ltac frame := intros; repeat frame_step.

(** ** What leaves the browser alone *)

#[global] Instance same_preorder {B} (obs : Browser → B) : PreOrder (same obs).
Proof.
  split.
  - by intros b.
  - intros b1 b2 b3 H12 H23. unfold same in *. congruence.
Qed.

#[global] Instance holds_preorder (Rb : relation Browser) `{!PreOrder Rb} :
  PreOrder (holds Rb).
Proof.
  split.
  - intros w. unfold holds. reflexivity.
  - intros w1 w2 w3 H12 H23. unfold holds in *. by etransitivity.
Qed.

Section Holds.
Context (Rb : relation Browser) `{!PreOrder Rb}.

Lemma holds_this {A} (f : App → A) : preserves (holds Rb) (this f).
Proof. intros w. unfold holds. reflexivity. Qed.

Lemma holds_ask {A} (f : Browser → A) : preserves (holds Rb) (ask f).
Proof. intros w. unfold holds. reflexivity. Qed.

Lemma holds_assign f : preserves (holds Rb) (assign f).
Proof. intros w. unfold holds. reflexivity. Qed.

Lemma holds_tell f : (∀ b, Rb b (f b)) → preserves (holds Rb) (tell f).
Proof. intros H w. apply H. Qed.
End Holds.

Create HintDb methods.

#[local] Hint Unfold getElementById querySelectorAll querySelector
  update_element classList_add classList_remove classList_toggle
  set_className set_textContent getContext dataset_city addClickListener
  setTimer
  clearInterval getItem effect reported
  updateFocusableElements focusElement focusNext focusPrevious
  toggleCityDropdown closeDropdown saveCity loadSavedCity showLoading
  showError hideError setText updateWeatherIcon updateCurrentWeather
  updateLastUpdateTime drawChart setTimeRange loadWeatherData_catch
  loadWeatherData loadWeatherData_response loadWeatherData_data
  showSelectedCity selectCity startAutoRefresh stopAutoRefresh
  run_listener dispatch_click click activateFocusedElement handleKeyDown
  run_timer deliver refresh command setupEventListeners init constructor
  domContentLoaded : methods.

Create HintDb deep.

(** A frame proof that opens the methods down to the primitives; [side]
    settles what a primitive write has to satisfy. *)
Ltac deep_step side :=
  first
    [ solve [auto with deep]
    | apply preserves_ret; apply _
    | apply preserves_throw; apply _
    | apply preserves_deref; apply _
    | apply preserves_bind; [apply _| |intros ?]
    | apply preserves_try_catch; [apply _| |intros ?]
    | apply preserves_forEach; [apply _|intros ?]
    | apply holds_this; apply _
    | apply holds_ask; apply _
    | apply holds_assign; apply _
    | apply holds_tell; solve [side]
    | apply keeps_this
    | apply keeps_ask
    | apply keeps_tell
    | apply keeps_assign; solve [side]
    | match goal with
      | |- preserves _ (match ?x with _ => _ end) => destruct x
      end
    | progress cbv zeta
    | progress autounfold with methods ].

Ltac deep side := intros; repeat deep_step side.

Section BrowserFrame.
Context {B : Type} (obs : App → B).

Lemma keeps_reported m :
  preserves (keeps obs) m → preserves (keeps obs) (reported m).
Proof. intros Hm. unfold reported. frame. Qed.

Lemma keeps_getElementById id : preserves (keeps obs) (getElementById id).
Proof. unfold getElementById. frame. Qed.

Lemma keeps_querySelectorAll cls :
  preserves (keeps obs) (querySelectorAll cls).
Proof. unfold querySelectorAll. frame. Qed.

Lemma keeps_querySelector root tag :
  preserves (keeps obs) (querySelector root tag).
Proof. unfold querySelector. frame. Qed.

Lemma keeps_update_element el f : preserves (keeps obs) (update_element el f).
Proof. unfold update_element. frame. Qed.

Lemma keeps_classList_add el token :
  preserves (keeps obs) (classList_add el token).
Proof. apply keeps_update_element. Qed.

Lemma keeps_classList_remove el token :
  preserves (keeps obs) (classList_remove el token).
Proof. apply keeps_update_element. Qed.

Lemma keeps_classList_toggle el token force :
  preserves (keeps obs) (classList_toggle el token force).
Proof.
  destruct force; [apply keeps_classList_add|apply keeps_classList_remove].
Qed.

Lemma keeps_set_className el tokens :
  preserves (keeps obs) (set_className el tokens).
Proof. apply keeps_update_element. Qed.

Lemma keeps_set_textContent el t :
  preserves (keeps obs) (set_textContent el t).
Proof. unfold set_textContent. frame. Qed.

Lemma keeps_dataset_city el : preserves (keeps obs) (dataset_city el).
Proof. unfold dataset_city. frame. Qed.

Lemma keeps_addClickListener el l :
  preserves (keeps obs) (addClickListener el l).
Proof. unfold addClickListener. frame. Qed.

Lemma keeps_setTimer repeating cb :
  preserves (keeps obs) (setTimer repeating cb).
Proof. unfold setTimer. frame. Qed.

Lemma keeps_clearInterval id : preserves (keeps obs) (clearInterval id).
Proof. unfold clearInterval. frame. Qed.

Lemma keeps_getItem key : preserves (keeps obs) (getItem key).
Proof. unfold getItem. frame. Qed.

Lemma keeps_setItem key value : preserves (keeps obs) (setItem key value).
Proof. unfold setItem. frame. Qed.
End BrowserFrame.

#[local] Hint Resolve keeps_reported keeps_getElementById
  keeps_querySelectorAll keeps_querySelector keeps_classList_add
  keeps_classList_remove keeps_classList_toggle keeps_set_className
  keeps_set_textContent keeps_dataset_city keeps_addClickListener
  keeps_setTimer keeps_clearInterval keeps_getItem keeps_setItem : frame.

(** The methods that never write the focus set, the focus index or the
    mode.  The lemmas are stated for any observation that the four
    assignments below leave alone. *)
Section MethodFrame.
Context {B : Type} (obs : App → B).
Hypothesis obs_range : ∀ v a, obs (set_currentTimeRange v a) = obs a.
Hypothesis obs_weather : ∀ v a, obs (set_weatherData v a) = obs a.
Hypothesis obs_chart : ∀ v a, obs (set_chart v a) = obs a.
Hypothesis obs_interval : ∀ v a, obs (set_autoRefreshInterval v a) = obs a.
Hypothesis obs_focusable : ∀ v a, obs (set_focusableElements v a) = obs a.

Lemma keeps_saveCity cityKey : preserves (keeps obs) (saveCity cityKey).
Proof. unfold saveCity. frame. Qed.

Lemma keeps_loadSavedCity : preserves (keeps obs) loadSavedCity.
Proof. unfold loadSavedCity. frame. Qed.

Lemma keeps_showLoading show : preserves (keeps obs) (showLoading show).
Proof. unfold showLoading. frame. Qed.

Lemma keeps_showError message : preserves (keeps obs) (showError message).
Proof. unfold showError. frame. Qed.

Lemma keeps_hideError : preserves (keeps obs) hideError.
Proof. unfold hideError. frame. Qed.

Lemma keeps_setText id t : preserves (keeps obs) (setText id t).
Proof. unfold setText. frame. Qed.

#[local] Hint Resolve keeps_saveCity keeps_loadSavedCity keeps_showLoading
  keeps_showError keeps_hideError keeps_setText : frame.

Lemma keeps_updateWeatherIcon code :
  preserves (keeps obs) (updateWeatherIcon code).
Proof. unfold updateWeatherIcon. frame. Qed.

#[local] Hint Resolve keeps_updateWeatherIcon : frame.

Lemma keeps_updateCurrentWeather data :
  preserves (keeps obs) (updateCurrentWeather data).
Proof. unfold updateCurrentWeather. frame. Qed.

Lemma keeps_updateLastUpdateTime timeString :
  preserves (keeps obs) (updateLastUpdateTime timeString).
Proof. unfold updateLastUpdateTime. frame. Qed.

Lemma keeps_drawChart : preserves (keeps obs) drawChart.
Proof. unfold drawChart. frame. Qed.

#[local] Hint Resolve keeps_updateCurrentWeather keeps_updateLastUpdateTime
  keeps_drawChart : frame.

Lemma keeps_setTimeRange hours : preserves (keeps obs) (setTimeRange hours).
Proof. unfold setTimeRange. frame. Qed.

Lemma keeps_loadWeatherData_catch error :
  preserves (keeps obs) (loadWeatherData_catch error).
Proof. unfold loadWeatherData_catch. frame. Qed.

#[local] Hint Resolve keeps_loadWeatherData_catch : frame.

Lemma keeps_loadWeatherData : preserves (keeps obs) loadWeatherData.
Proof. unfold loadWeatherData. apply keeps_reported. frame. Qed.

Lemma keeps_loadWeatherData_response r :
  preserves (keeps obs) (loadWeatherData_response r).
Proof. unfold loadWeatherData_response. apply keeps_reported. frame. Qed.

Lemma keeps_loadWeatherData_data body timeString :
  preserves (keeps obs) (loadWeatherData_data body timeString).
Proof. unfold loadWeatherData_data. apply keeps_reported. frame. Qed.

#[local] Hint Resolve keeps_loadWeatherData : frame.

Lemma keeps_refresh step : preserves (keeps obs) (refresh step).
Proof.
  destruct step; simpl.
  - frame.
  - apply keeps_loadWeatherData_response.
  - apply keeps_loadWeatherData_data.
Qed.

Lemma keeps_showSelectedCity key :
  preserves (keeps obs) (showSelectedCity key).
Proof. unfold showSelectedCity. frame. Qed.

Lemma keeps_startAutoRefresh : preserves (keeps obs) startAutoRefresh.
Proof. unfold startAutoRefresh. frame. Qed.

Lemma keeps_stopAutoRefresh : preserves (keeps obs) stopAutoRefresh.
Proof. unfold stopAutoRefresh. frame. Qed.

Lemma keeps_setupEventListeners : preserves (keeps obs) setupEventListeners.
Proof. unfold setupEventListeners. frame. Qed.

Lemma keeps_updateFocusableElements :
  preserves (keeps obs) updateFocusableElements.
Proof. unfold updateFocusableElements. frame. Qed.

#[local] Hint Resolve keeps_setupEventListeners keeps_startAutoRefresh
  keeps_showSelectedCity keeps_updateFocusableElements : frame.

Lemma keeps_init : preserves (keeps obs) init.
Proof. unfold init. frame. Qed.
End MethodFrame.

#[local] Hint Resolve keeps_saveCity keeps_loadSavedCity keeps_showLoading
  keeps_showError keeps_hideError keeps_setText keeps_updateWeatherIcon
  keeps_updateCurrentWeather keeps_updateLastUpdateTime keeps_drawChart
  keeps_setTimeRange keeps_loadWeatherData keeps_loadWeatherData_response
  keeps_loadWeatherData_data keeps_refresh keeps_showSelectedCity
  keeps_startAutoRefresh keeps_stopAutoRefresh keeps_setupEventListeners
  keeps_init : frame.

(** A goal about a coarser relation, settled by a frame proof. *)
Ltac by_frame obs lem :=
  apply (preserves_weaken (keeps obs)); [exact lem|]; solve [frame].

(** ** Moving the focus *)

Lemma clamp_range index len :
  len ≠ 0 → (0 ≤ clamp index len ≤ Z.of_nat len - 1)%Z.
Proof. unfold clamp. lia. Qed.

Lemma index_in_bounds {A} (arr : list A) (i : Z) :
  (0 ≤ i ≤ Z.of_nat (length arr) - 1)%Z → is_Some (Js.index arr i).
Proof.
  intros Hi. unfold Js.index.
  destruct (Z.ltb_spec i 0); [lia|].
  apply lookup_lt_is_Some. lia.
Qed.

Lemma index_empty {A} (i : Z) : Js.index (@nil A) i = None.
Proof. unfold Js.index. by destruct (i <? 0)%Z. Qed.

(** Clearing the marker of every element of the set returns and writes
    to the page only. *)
Lemma forEach_unfocus els w :
  ∃ b, forEach els (λ el, classList_remove el "focused" ;; effect (Blur el)) w
       = (Returned tt, {| app := app w; browser := b |}).
Proof.
  revert w. induction els as [|el els IH]; intros w; simpl.
  - exists (browser w). unfold ret. by rewrite world_eta.
  - unfold bind at 1. simpl.
    match goal with
    | |- ∃ b, forEach _ _ ?w1 = _ => destruct (IH w1) as [b Hb]
    end.
    exists b. exact Hb.
Qed.

Lemma focusElement_empty index w :
  focusableElements (app w) = [] → focusElement index w = (Returned tt, w).
Proof.
  intros E. unfold focusElement, bind at 1, this. simpl. rewrite E. done.
Qed.

(** On a non-empty set [focusElement] returns, and the only field of
    [this] it writes is the index, which it clamps. *)
Lemma focusElement_spec index w :
  focusableElements (app w) ≠ [] →
  ∃ b, focusElement index w
       = (Returned tt,
          {| app := set_currentFocusIndex
                      (clamp index (length (focusableElements (app w))))
                      (app w);
             browser := b |}).
Proof.
  intros Hne. unfold focusElement, bind at 1, this. simpl.
  destruct (decide (length (focusableElements (app w)) = 0)) as [E|Hlen].
  { by apply length_zero_iff_nil in E. }
  destruct (forEach_unfocus (focusableElements (app w)) w) as [b Hb].
  erewrite bind_returned by exact Hb.
  unfold bind at 1, assign. simpl.
  unfold bind at 1, this. simpl.
  destruct (index_in_bounds (focusableElements (app w))
              (clamp index (length (focusableElements (app w)))))
    as [element Hel]; [by apply clamp_range|].
  unfold clamp in Hel. rewrite Hel. simpl.
  unfold bind, classList_add, update_element, effect, tell, ret. simpl.
  eexists. reflexivity.
Qed.

Lemma focusElement_in_range index w :
  index_in_range (after (focusElement index) w).
Proof.
  unfold after, index_in_range, focusSet, focusIndex.
  destruct (decide (focusableElements (app w) = [])) as [E|Hne].
  - rewrite focusElement_empty by done. simpl. by rewrite E.
  - destruct (focusElement_spec index w Hne) as [b ->]. simpl. intros _.
    apply clamp_range. by intros ?%length_zero_iff_nil.
Qed.

Lemma focusElement_step index : preserves in_range_step (focusElement index).
Proof. intros w _. apply focusElement_in_range. Qed.

Lemma focusNext_spec w :
  focusSet w ≠ [] →
  result focusNext w = Returned tt
  ∧ focusSet (after focusNext w) = focusSet w
  ∧ focusIndex (after focusNext w)
    = clamp (focusIndex w + 1) (length (focusSet w)).
Proof.
  intros Hne. unfold result, after, focusNext, bind, this. simpl.
  destruct (focusElement_spec (currentFocusIndex (app w) + 1) w Hne) as [b ->].
  done.
Qed.

Lemma focusPrevious_spec w :
  focusSet w ≠ [] →
  result focusPrevious w = Returned tt
  ∧ focusSet (after focusPrevious w) = focusSet w
  ∧ focusIndex (after focusPrevious w)
    = clamp (focusIndex w - 1) (length (focusSet w)).
Proof.
  intros Hne. unfold result, after, focusPrevious, bind, this. simpl.
  destruct (focusElement_spec (currentFocusIndex (app w) - 1) w Hne) as [b ->].
  done.
Qed.

(** A run of calls that return, unfolded by one call. *)
Lemma times_S n (m : M unit) w :
  result m w = Returned tt →
  result (times (S n) m) w = result (times n m) (after m w)
  ∧ after (times (S n) m) w = after (times n m) (after m w).
Proof.
  unfold result, after. simpl. unfold bind.
  destruct (m w) as [[[]|e] w1]; simpl; [done|discriminate].
Qed.

Lemma focusNext_times n : ∀ w,
  focusSet w ≠ [] →
  (0 ≤ focusIndex w ≤ Z.of_nat (length (focusSet w)) - 1)%Z →
  result (times n focusNext) w = Returned tt
  ∧ focusSet (after (times n focusNext) w) = focusSet w
  ∧ focusIndex (after (times n focusNext) w)
    = Z.min (focusIndex w + Z.of_nat n) (Z.of_nat (length (focusSet w)) - 1).
Proof.
  induction n as [|n IH]; intros w Hne Hi.
  - unfold result, after. simpl. repeat split. lia.
  - destruct (focusNext_spec w Hne) as (Hr & Hs & Hx).
    destruct (times_S n focusNext w Hr) as [-> ->].
    destruct (IH (after focusNext w)) as (Hr' & Hs' & Hx').
    + by rewrite Hs.
    + rewrite Hs, Hx. unfold clamp. lia.
    + rewrite Hr', Hs', Hx', Hs, Hx. unfold clamp. repeat split. lia.
Qed.

Lemma focusPrevious_times n : ∀ w,
  focusSet w ≠ [] →
  (0 ≤ focusIndex w ≤ Z.of_nat (length (focusSet w)) - 1)%Z →
  result (times n focusPrevious) w = Returned tt
  ∧ focusSet (after (times n focusPrevious) w) = focusSet w
  ∧ focusIndex (after (times n focusPrevious) w)
    = Z.max (focusIndex w - Z.of_nat n) 0.
Proof.
  induction n as [|n IH]; intros w Hne Hi.
  - unfold result, after. simpl. repeat split. lia.
  - destruct (focusPrevious_spec w Hne) as (Hr & Hs & Hx).
    destruct (times_S n focusPrevious w Hr) as [-> ->].
    destruct (IH (after focusPrevious w)) as (Hr' & Hs' & Hx').
    + by rewrite Hs.
    + rewrite Hs, Hx. unfold clamp. lia.
    + rewrite Hr', Hs', Hx', Hs, Hx. unfold clamp. repeat split. lia.
Qed.

(** ** The index stays in range *)

Lemma updateFocusableElements_returns w :
  ∃ els, updateFocusableElements w
         = (Returned tt,
            {| app := set_focusableElements els (app w);
               browser := browser w |}).
Proof.
  unfold updateFocusableElements, bind, this, assign, getElementById,
    querySelectorAll, ask, ret.
  simpl. destruct (isDropdownOpen (app w)); simpl; eexists; reflexivity.
Qed.

(** The pair of calls that ends every change of mode. *)
Lemma refocus_in_range w :
  index_in_range (after (updateFocusableElements ;; focusElement 0) w).
Proof.
  destruct (updateFocusableElements_returns w) as [els E].
  unfold after. erewrite bind_returned by exact E.
  apply focusElement_in_range.
Qed.

Lemma refocus_step :
  preserves in_range_step (updateFocusableElements ;; focusElement 0).
Proof. intros w _. apply refocus_in_range. Qed.

Create HintDb in_range.

#[local] Hint Resolve refocus_step focusElement_step : in_range.

Ltac in_range_step_tac :=
  first
    [ by_frame focus keeps_focus_in_range
    | solve [auto with in_range]
    | apply preserves_bind; [apply _| |intros ?]
    | apply preserves_try_catch; [apply _| |intros ?]
    | apply preserves_forEach; [apply _|intros ?]
    | match goal with
      | |- preserves _ (match ?x with _ => _ end) => destruct x
      end ].

Ltac in_range := intros; repeat in_range_step_tac.

Lemma focusNext_step : preserves in_range_step focusNext.
Proof. unfold focusNext. in_range. Qed.

Lemma focusPrevious_step : preserves in_range_step focusPrevious.
Proof. unfold focusPrevious. in_range. Qed.

Lemma toggleCityDropdown_step : preserves in_range_step toggleCityDropdown.
Proof. unfold toggleCityDropdown. in_range. Qed.

Lemma closeDropdown_step : preserves in_range_step closeDropdown.
Proof. unfold closeDropdown. in_range. Qed.

#[local] Hint Resolve focusNext_step focusPrevious_step
  toggleCityDropdown_step closeDropdown_step : in_range.

Lemma selectCity_step cityKey : preserves in_range_step (selectCity cityKey).
Proof. unfold selectCity. in_range. Qed.

#[local] Hint Resolve selectCity_step : in_range.

Lemma run_listener_step l : preserves in_range_step (run_listener l).
Proof. unfold run_listener. in_range. Qed.

#[local] Hint Resolve run_listener_step : in_range.

Lemma dispatch_click_step target : preserves in_range_step (dispatch_click target).
Proof. unfold dispatch_click, reported. in_range. Qed.

#[local] Hint Resolve dispatch_click_step : in_range.

Lemma activateFocusedElement_step : preserves in_range_step activateFocusedElement.
Proof. unfold activateFocusedElement, click. in_range. Qed.

#[local] Hint Resolve activateFocusedElement_step : in_range.

Lemma handleKeyDown_step key : preserves in_range_step (handleKeyDown key).
Proof. unfold handleKeyDown. in_range. Qed.

Lemma run_timer_step cb : preserves in_range_step (run_timer cb).
Proof. unfold run_timer. in_range. Qed.

#[local] Hint Resolve handleKeyDown_step run_timer_step : in_range.

Lemma deliver_step ev : preserves in_range_step (deliver ev).
Proof. unfold deliver, reported. in_range. Qed.

Lemma command_step c : preserves in_range_step (command c).
Proof. destruct c; simpl; auto with in_range. Qed.

(** The constructor leaves the index at 0, wherever it stops. *)
Lemma constructor_stays_zero : preserves stays_zero constructor.
Proof.
  unfold constructor.
  repeat first
    [ by_frame currentFocusIndex keeps_index_stays_zero
    | apply preserves_bind; [apply _| |intros ?] ].
  intros w _. reflexivity.
Qed.

Lemma domContentLoaded_index doc store :
  focusIndex (after domContentLoaded (page doc store)) = 0%Z.
Proof.
  assert (preserves stays_zero domContentLoaded) as H.
  { unfold domContentLoaded, reported.
    apply preserves_try_catch; [apply _| |intros ?].
    - apply preserves_bind; [apply _|apply constructor_stays_zero|intros ?].
      by_frame currentFocusIndex keeps_index_stays_zero.
    - by_frame currentFocusIndex keeps_index_stays_zero. }
  by apply H.
Qed.

Lemma session_in_range doc store evs : index_in_range (session doc store evs).
Proof.
  unfold session.
  apply (preserves_run in_range_step evs deliver_step).
  unfold index_in_range. rewrite domContentLoaded_index. intros Hne.
  split; [done|].
  destruct (focusSet _); [done|]. simpl. lia.
Qed.

(** ** C1: the focus index is a position of the focus set *)

(** C1.  After the page has loaded and any events have been delivered,
    and again after any navigation command issued in such a world, a
    non-empty focus set comes with a focus index between 0 and its length
    minus one.  The recomputations of the set are those of [init], of
    [toggleCityDropdown] and of [closeDropdown], all of which are part of
    these runs. *)
Theorem focus_index_in_range doc store evs c w :
  w = session doc store evs ∨ w = after (command c) (session doc store evs) →
  focusSet w ≠ [] →
  (0 ≤ focusIndex w < Z.of_nat (length (focusSet w)))%Z.
Proof.
  intros Hw Hne.
  assert (index_in_range w) as H.
  { destruct Hw as [->| ->].
    - apply session_in_range.
    - apply command_step, session_in_range. }
  specialize (H Hne). lia.
Qed.

Lemma focus_index_in_range_witness :
  focusSet (after (command MoveNext) overlay_world) ≠ []
  ∧ (0 ≤ focusIndex (after (command MoveNext) overlay_world)
     < Z.of_nat (length (focusSet (after (command MoveNext) overlay_world))))%Z.
Proof.
  assert (focusSet (after (command MoveNext) overlay_world) ≠ []) as Hne.
  { vm_compute. discriminate. }
  split; [exact Hne|].
  apply (focus_index_in_range sample_page empty_store
           [KeyDown "Enter"; KeyDown "ArrowRight"] MoveNext).
  - right. reflexivity.
  - exact Hne.
Defined.

(** ** C2 and C3: the ends of the focus set *)

(** C2.  On a focus set of [N] elements, [N] > 0, and from any index in
    range, [N + 5] calls of [focusNext] all return and leave the index on
    [N - 1]; the set is the same. *)
Theorem focusNext_stops_at_last w :
  focusSet w ≠ [] →
  (0 ≤ focusIndex w < Z.of_nat (length (focusSet w)))%Z →
  result (times (length (focusSet w) + 5) focusNext) w = Returned tt
  ∧ focusSet (after (times (length (focusSet w) + 5) focusNext) w) = focusSet w
  ∧ focusIndex (after (times (length (focusSet w) + 5) focusNext) w)
    = (Z.of_nat (length (focusSet w)) - 1)%Z.
Proof.
  intros Hne Hi.
  destruct (focusNext_times (length (focusSet w) + 5) w Hne) as (Hr & Hs & Hx);
    [lia|].
  repeat split; [exact Hr|exact Hs|]. rewrite Hx. lia.
Qed.

Lemma focusNext_stops_at_last_witness :
  focusSet overlay_world ≠ []
  ∧ (0 ≤ focusIndex overlay_world
     < Z.of_nat (length (focusSet overlay_world)))%Z
  ∧ focusIndex (after (times (length (focusSet overlay_world) + 5) focusNext)
                  overlay_world)
    = (Z.of_nat (length (focusSet overlay_world)) - 1)%Z.
Proof.
  assert (focusSet overlay_world ≠ []) as Hne.
  { vm_compute. discriminate. }
  assert (0 ≤ focusIndex overlay_world
          < Z.of_nat (length (focusSet overlay_world)))%Z as Hi.
  { vm_compute. split; [discriminate|reflexivity]. }
  split; [exact Hne|]. split; [exact Hi|].
  apply (focusNext_stops_at_last overlay_world Hne Hi).
Defined.

(** C3.  On a non-empty focus set and from any index, [n] calls of
    [focusPrevious] all return and leave the index on 0 as soon as [n] is
    at least the length of the set (from an index [i] in range, as soon as
    [n] is at least [i]); and at index 0 a further call leaves the index on
    0. *)
Theorem focusPrevious_reaches_first w :
  focusSet w ≠ [] →
  (∀ n, length (focusSet w) ≤ n
        ∨ (0 ≤ focusIndex w ≤ Z.of_nat n
           ∧ focusIndex w < Z.of_nat (length (focusSet w)))%Z →
        result (times n focusPrevious) w = Returned tt
        ∧ focusIndex (after (times n focusPrevious) w) = 0%Z)
  ∧ (focusIndex w = 0%Z →
     result focusPrevious w = Returned tt
     ∧ focusIndex (after focusPrevious w) = 0%Z
     ∧ focusSet (after focusPrevious w) = focusSet w).
Proof.
  intros Hne.
  assert (length (focusSet w) ≠ 0) as Hlen by by intros ?%length_zero_iff_nil.
  destruct (focusPrevious_spec w Hne) as (Hr & Hs & Hx).
  split.
  - intros n [Hn|Hn].
    + destruct n as [|n]; [lia|].
      destruct (times_S n focusPrevious w Hr) as [-> ->].
      pose proof (clamp_range (focusIndex w - 1) _ Hlen) as Hc.
      destruct (focusPrevious_times n (after focusPrevious w)) as (Hr' & _ & Hx').
      * by rewrite Hs.
      * rewrite Hs, Hx. exact Hc.
      * split; [exact Hr'|]. rewrite Hx', Hx. lia.
    + destruct (focusPrevious_times n w Hne) as (Hr' & _ & Hx'); [lia|].
      split; [exact Hr'|]. rewrite Hx'. lia.
  - intros H0. repeat split; [exact Hr| |exact Hs].
    rewrite Hx, H0. unfold clamp. lia.
Qed.

Lemma focusPrevious_reaches_first_witness :
  focusSet overlay_world ≠ []
  ∧ focusIndex (after (times 3 focusPrevious) overlay_world) = 0%Z.
Proof.
  assert (focusSet overlay_world ≠ []) as Hne.
  { vm_compute. discriminate. }
  split; [exact Hne|].
  assert (length (focusSet overlay_world) ≤ 3) as Hn.
  { vm_compute. lia. }
  exact (proj2 (proj1 (focusPrevious_reaches_first overlay_world Hne) 3
                  (or_introl Hn))).
Defined.

(** ** C4: what a change of mode does to the set and the index *)

Lemma omap_id_Some {A} (l : list A) : omap id (Some <$> l) = l.
Proof. induction l as [|a l IH]; csimpl; [done|]. by rewrite IH. Qed.

(** What [updateFocusableElements] assigns. *)
Lemma updateFocusableElements_run w :
  updateFocusableElements w
  = (Returned tt,
     {| app := set_focusableElements
                 (if isDropdownOpen (app w) then
                    positions (λ _ e, el_attached e
                                      && bool_decide ("city-option" ∈ el_classes e))
                      0 (elements (browser w))
                  else
                    omap id
                      [ fst <$> list_find (has_id "citySelector")
                                  (elements (browser w));
                        fst <$> list_find (has_id "range24h")
                                  (elements (browser w));
                        fst <$> list_find (has_id "range48h")
                                  (elements (browser w)) ])
                 (app w);
        browser := browser w |}).
Proof.
  unfold updateFocusableElements, bind, this, assign, getElementById,
    querySelectorAll, ask, ret.
  simpl. destruct (isDropdownOpen (app w)); simpl; [|done].
  by rewrite omap_id_Some.
Qed.

(** A change of one element that keeps ids and attachment does not change
    what [getElementById] finds. *)
Lemma find_after_alter id (f : Element → Element) (doc : list Element) :
  (∀ e, has_id id (f e) ↔ has_id id e) →
  ∀ el, fst <$> list_find (has_id id) (alter f el doc)
        = fst <$> list_find (has_id id) doc.
Proof.
  intros Hf. induction doc as [|e doc IH]; intros el; [done|].
  destruct el as [|el]; simpl.
  - pose proof (Hf e).
    repeat case_decide; try done; exfalso; tauto.
  - case_decide; [done|].
    specialize (IH el).
    change (list_alter f el doc) with (alter f el doc).
    destruct (list_find (has_id id) (alter f el doc)) as [[i x]|];
      destruct (list_find (has_id id) doc) as [[j y]|];
      cbn in *; congruence.
Qed.

Lemma positions_alter (p : nat → Element → bool) f doc :
  (∀ n e, p n (f e) = p n e) →
  ∀ el i, positions p i (alter f el doc) = positions p i doc.
Proof.
  intros Hp. induction doc as [|e doc IH]; intros el i; [done|].
  destruct el as [|el]; simpl.
  - by rewrite Hp.
  - change (list_alter f el doc) with (alter f el doc). by rewrite IH.
Qed.

(** A change of one element that keeps its id, its attachment and whether
    it is a city option changes no focus set. *)
Lemma focusSetOf_alter f el doc mode :
  (∀ e, el_attached (f e) = el_attached e
        ∧ el_id (f e) = el_id e
        ∧ ("city-option" ∈ el_classes (f e) ↔ "city-option" ∈ el_classes e)) →
  focusSetOf mode (alter f el doc) = focusSetOf mode doc.
Proof.
  intros Hf. destruct mode; simpl.
  - rewrite !find_after_alter; [done|..]; intros e; unfold has_id;
      destruct (Hf e) as (-> & -> & _); done.
  - apply positions_alter. intros _ e.
    destruct (Hf e) as (-> & _ & Hc). f_equal. by apply bool_decide_ext.
Qed.

#[global] Instance same_targets_preorder : PreOrder same_targets.
Proof.
  split.
  - by intros b mode.
  - intros b1 b2 b3 H12 H23 mode. by rewrite H23, H12.
Qed.

Lemma same_targets_alter f el b :
  (∀ e, el_attached (f e) = el_attached e
        ∧ el_id (f e) = el_id e
        ∧ ("city-option" ∈ el_classes (f e) ↔ "city-option" ∈ el_classes e)) →
  same_targets b (set_elements (alter f el (elements b)) b).
Proof. intros Hf mode. simpl. by apply focusSetOf_alter. Qed.

Ltac targets_side :=
  intros;
  first
    [ apply same_targets_alter; intros; simpl;
      repeat case_decide; simpl;
      rewrite ?list_elem_of_filter, ?elem_of_app, ?list_elem_of_singleton;
      repeat split; try done; intuition discriminate
    | intros ?; reflexivity ].

(** The methods that change the mode touch the classes [active] and
    [focused] only: the focus sets of the page stay what they were. *)
Lemma refocus_targets :
  preserves (holds same_targets) (updateFocusableElements ;; focusElement 0).
Proof. deep targets_side. Qed.

Lemma toggleCityDropdown_targets :
  preserves (holds same_targets) toggleCityDropdown.
Proof. deep targets_side. Qed.

Lemma closeDropdown_targets : preserves (holds same_targets) closeDropdown.
Proof. deep targets_side. Qed.

(** The recomputation followed by [focusElement(0)]: it returns, keeps
    the mode, leaves the focus set of the mode, and sets the index to 0
    unless the new set is empty, in which case the index is not written. *)
Lemma refocus_spec w :
  let w' := after (updateFocusableElements ;; focusElement 0) w in
  result (updateFocusableElements ;; focusElement 0) w = Returned tt
  ∧ isDropdownOpen (app w') = isDropdownOpen (app w)
  ∧ (focusSet w' ≠ [] → focusIndex w' = 0%Z)
  ∧ (focusSet w' = [] → focusIndex w' = focusIndex w).
Proof.
  destruct (updateFocusableElements_returns w) as [els E].
  unfold result, after, focusSet, focusIndex.
  erewrite bind_returned by exact E.
  destruct (decide (els = [])) as [->|Hne].
  - rewrite focusElement_empty by done. simpl. done.
  - edestruct focusElement_spec as [b ->]; [exact Hne|]. simpl.
    repeat split; [|done]. intros _. unfold clamp. lia.
Qed.

Lemma refocus_set w :
  focusSet (after (updateFocusableElements ;; focusElement 0) w)
  = focusSetOf (navigationMode w) (elements (browser w)).
Proof.
  unfold after, focusSet.
  erewrite bind_returned by apply updateFocusableElements_run.
  match goal with
  | |- context [focusElement 0 ?w1] =>
      destruct (decide (focusableElements (app w1) = [])) as [E|Hne];
      [rewrite focusElement_empty by exact E
      |destruct (focusElement_spec 0 w1 Hne) as [b ->]]
  end;
    simpl; unfold navigationMode, focusSetOf;
    by destruct (isDropdownOpen (app w)).
Qed.

(** A change of mode either stops at the missing dropdown, or comes down
    to the recomputation in a world where only the mode and the page
    differ. *)
Lemma toggleCityDropdown_cases w :
  ∃ r, toggleCityDropdown w = r
       ∧ ((∃ e w1, r = (Thrown e, w1))
          ∨ (∃ b, r = (updateFocusableElements ;; focusElement 0)
                        {| app := set_isDropdownOpen
                                    (negb (isDropdownOpen (app w))) (app w);
                           browser := b |})).
Proof.
  unfold toggleCityDropdown.
  unfold bind at 1, this. simpl.
  unfold bind at 1, assign. simpl.
  unfold bind at 1, getElementById, ask. simpl.
  unfold bind at 1, this. simpl.
  destruct (list_find _ _) as [[d e]|]; simpl;
    destruct (negb (isDropdownOpen (app w)));
    unfold bind at 1, deref, throw, ret; simpl;
    try (eexists; split; [reflexivity|]; left; eexists _, _; reflexivity);
    unfold bind at 1, classList_add, classList_remove, update_element, tell;
    simpl; eexists; (split; [reflexivity|]); right; eexists; reflexivity.
Qed.

Lemma closeDropdown_cases w :
  isDropdownOpen (app w) = true →
  ∃ r, closeDropdown w = r
       ∧ ((∃ e w1, r = (Thrown e, w1))
          ∨ (∃ b, r = (updateFocusableElements ;; focusElement 0)
                        {| app := set_isDropdownOpen false (app w);
                           browser := b |})).
Proof.
  intros Hopen. unfold closeDropdown.
  unfold bind at 1, this. simpl. rewrite Hopen.
  unfold bind at 1, assign. simpl.
  unfold bind at 1, getElementById, ask. simpl.
  destruct (list_find _ _) as [[d e]|]; simpl;
    unfold bind at 1, deref, throw, ret; simpl;
    try (eexists; split; [reflexivity|]; left; eexists _, _; reflexivity).
  unfold bind at 1, classList_remove, update_element, tell. simpl.
  eexists. split; [reflexivity|]. right. eexists. reflexivity.
Qed.

(** What the pair of calls leaves, seen from the method that ends with
    it: [w1] is the world in which the pair starts, [w'] the world the
    method leaves and [w] the world in which the method started. *)
Lemma refocus_outcome w w1 w' :
  w' = after (updateFocusableElements ;; focusElement 0) w1 →
  same_targets (browser w) (browser w') →
  isDropdownOpen (app w') = isDropdownOpen (app w1)
  ∧ focusSet w'
    = focusSetOf (navigationMode w') (elements (browser w'))
  ∧ focusSet w' = focusSetOf (navigationMode w') (elements (browser w))
  ∧ (focusSet w' ≠ [] → focusIndex w' = 0%Z)
  ∧ (focusSet w' = [] → focusIndex w' = focusIndex w1).
Proof.
  intros -> Hw.
  destruct (refocus_spec w1) as (_ & Hm & H1 & H2).
  pose proof (refocus_set w1) as Hset.
  pose proof (refocus_targets w1) as H1'. unfold holds in H1'.
  assert (navigationMode
            (after (updateFocusableElements ;; focusElement 0) w1)
          = navigationMode w1) as Hmode.
  { unfold navigationMode. by rewrite Hm. }
  split; [exact Hm|]. rewrite Hmode.
  split; [by rewrite H1'|].
  split; [by rewrite <- Hw, H1'|]. done.
Qed.

Lemma toggleCityDropdown_spec w :
  result toggleCityDropdown w = Returned tt →
  let w' := after toggleCityDropdown w in
  isDropdownOpen (app w') = negb (isDropdownOpen (app w))
  ∧ focusSet w' = focusSetOf (navigationMode w') (elements (browser w'))
  ∧ focusSet w' = focusSetOf (navigationMode w') (elements (browser w))
  ∧ (focusSet w' ≠ [] → focusIndex w' = 0%Z)
  ∧ (focusSet w' = [] → focusIndex w' = focusIndex w).
Proof.
  intros Hr w'.
  pose proof (toggleCityDropdown_targets w) as Hw. unfold holds in Hw.
  fold w' in Hw. revert Hr. unfold result.
  destruct (toggleCityDropdown_cases w) as (r & Er & [(e & w1 & ->)|[b ->]]);
    [by rewrite Er|].
  intros _.
  destruct (refocus_outcome w
              {| app := set_isDropdownOpen (negb (isDropdownOpen (app w)))
                          (app w);
                 browser := b |} w')
    as (? & ? & ? & ? & ?); [unfold w', after; by rewrite Er|exact Hw|].
  done.
Qed.

Lemma closeDropdown_spec w :
  isDropdownOpen (app w) = true →
  result closeDropdown w = Returned tt →
  let w' := after closeDropdown w in
  isDropdownOpen (app w') = false
  ∧ focusSet w' = focusSetOf (navigationMode w') (elements (browser w'))
  ∧ focusSet w' = focusSetOf (navigationMode w') (elements (browser w))
  ∧ (focusSet w' ≠ [] → focusIndex w' = 0%Z)
  ∧ (focusSet w' = [] → focusIndex w' = focusIndex w).
Proof.
  intros Hopen Hr w'.
  pose proof (closeDropdown_targets w) as Hw. unfold holds in Hw.
  fold w' in Hw. revert Hr. unfold result.
  destruct (closeDropdown_cases w Hopen)
    as (r & Er & [(e & w1 & ->)|[b ->]]); [by rewrite Er|].
  intros _.
  destruct (refocus_outcome w
              {| app := set_isDropdownOpen false (app w); browser := b |} w')
    as (? & ? & ? & ? & ?); [unfold w', after; by rewrite Er|exact Hw|].
  done.
Qed.

(** C4, amended.  A change of mode that completes ([toggleCityDropdown],
    or [closeDropdown] while the overlay is open) switches the mode and
    recomputes the focus set: the set is afterwards the focus set of the
    new mode, on the page as it is then and as it was before (the city
    options in document order when the overlay has been opened, the three
    controls when it has been closed).  It sets the focus index to 0 when
    the recomputed set is not empty; when it is empty the index is left as
    it was.  In particular, opening the overlay and closing it again, by
    either method, ends in normal mode, on the set of the three controls,
    with the index on 0 whenever that set is not empty. *)
Theorem mode_change_resets_index w c :
  c = SetMode ∨ (c = CloseOverlay ∧ navigationMode w = OverlayOpen) →
  result (command c) w = Returned tt →
  (navigationMode (after (command c) w) ≠ navigationMode w
   ∧ focusSet (after (command c) w)
     = focusSetOf (navigationMode (after (command c) w))
         (elements (browser (after (command c) w)))
   ∧ focusSet (after (command c) w)
     = focusSetOf (navigationMode (after (command c) w))
         (elements (browser w))
   ∧ (focusSet (after (command c) w) ≠ [] →
      focusIndex (after (command c) w) = 0%Z)
   ∧ (focusSet (after (command c) w) = [] →
      focusIndex (after (command c) w) = focusIndex w))
  ∧ (∀ c2, navigationMode w = Normal →
           c2 = SetMode ∨ c2 = CloseOverlay →
           result (command c2) (after (command c) w) = Returned tt →
           navigationMode (after (command c2) (after (command c) w)) = Normal
           ∧ focusSet (after (command c2) (after (command c) w))
             = focusSetOf Normal (elements (browser w))
           ∧ (focusSet (after (command c2) (after (command c) w)) ≠ [] →
              focusIndex (after (command c2) (after (command c) w)) = 0%Z)).
Proof.
  intros Hc Hr.
  assert (isDropdownOpen (app (after (command c) w))
          = negb (isDropdownOpen (app w))
          ∧ focusSet (after (command c) w)
            = focusSetOf (navigationMode (after (command c) w))
                (elements (browser (after (command c) w)))
          ∧ focusSet (after (command c) w)
            = focusSetOf (navigationMode (after (command c) w))
                (elements (browser w))
          ∧ (focusSet (after (command c) w) ≠ [] →
             focusIndex (after (command c) w) = 0%Z)
          ∧ (focusSet (after (command c) w) = [] →
             focusIndex (after (command c) w) = focusIndex w))
    as (Hm & Hs1 & Hs2 & H1 & H2).
  { destruct Hc as [->|[-> Hopen]]; simpl in *.
    - by apply toggleCityDropdown_spec.
    - unfold navigationMode in Hopen.
      destruct (isDropdownOpen (app w)) eqn:E; [|discriminate].
      destruct (closeDropdown_spec w E Hr) as (-> & ? & ? & ? & ?). done. }
  assert (same_targets (browser w) (browser (after (command c) w))) as Hpage.
  { destruct Hc as [->|[-> _]]; simpl.
    - apply toggleCityDropdown_targets.
    - apply closeDropdown_targets. }
  split.
  - repeat split; [|exact Hs1|exact Hs2|exact H1|exact H2].
    unfold navigationMode. rewrite Hm.
    by destruct (isDropdownOpen (app w)).
  - intros c2 Hnormal Hc2 Hr2.
    unfold navigationMode in Hnormal.
    destruct (isDropdownOpen (app w)) eqn:E; [discriminate|].
    simpl in Hm.
    assert (isDropdownOpen
              (app (after (command c2) (after (command c) w))) = false
            ∧ focusSet (after (command c2) (after (command c) w))
              = focusSetOf
                  (navigationMode (after (command c2) (after (command c) w)))
                  (elements (browser (after (command c) w)))
            ∧ (focusSet (after (command c2) (after (command c) w)) ≠ [] →
               focusIndex (after (command c2) (after (command c) w)) = 0%Z))
      as (Hm2 & Hs & H0).
    { destruct Hc2 as [-> | ->]; simpl in *.
      - destruct (toggleCityDropdown_spec _ Hr2) as (Hm2 & _ & ? & ? & _).
        rewrite Hm in Hm2. done.
      - destruct (closeDropdown_spec _ Hm Hr2) as (Hm2 & _ & ? & ? & _).
        done. }
    assert (navigationMode (after (command c2) (after (command c) w))
            = Normal) as Hmode.
    { unfold navigationMode. by rewrite Hm2. }
    split; [exact Hmode|]. split; [|exact H0].
    rewrite Hs, Hmode. apply Hpage.
Qed.

Lemma mode_change_resets_index_witness :
  focusIndex third_control_world = 2%Z
  ∧ focusSet third_control_world = [0; 3; 4]
  ∧ result (command SetMode) third_control_world = Returned tt
  ∧ focusSet (after (command SetMode) third_control_world) = [17; 18; 19]
  ∧ focusIndex (after (command SetMode) third_control_world) = 0%Z.
Proof.
  assert (result (command SetMode) third_control_world = Returned tt) as Hr.
  { vm_compute. reflexivity. }
  assert (navigationMode (after (command SetMode) third_control_world)
          = OverlayOpen) as Hm.
  { vm_compute. reflexivity. }
  split; [vm_compute; reflexivity|]. split; [vm_compute; reflexivity|].
  split; [exact Hr|].
  destruct (proj1 (mode_change_resets_index third_control_world SetMode
                     (or_introl eq_refl) Hr))
    as (_ & _ & Hset & Hzero & _).
  rewrite Hm in Hset.
  assert (focusSetOf OverlayOpen (elements (browser third_control_world))
          = [17; 18; 19]) as Hcities.
  { vm_compute. reflexivity. }
  rewrite Hcities in Hset.
  split; [exact Hset|]. apply Hzero. by rewrite Hset.
Defined.

(** C4 as stated fails when the recomputed set is empty: on the
    page without city options, with the focus on the third control,
    opening the overlay completes, empties the focus set and leaves the
    index on 2. *)
Lemma index_not_reset_on_empty_set :
  navigationMode last_control_world = Normal
  ∧ focusIndex last_control_world = 2%Z
  ∧ result (command SetMode) last_control_world = Returned tt
  ∧ navigationMode (after (command SetMode) last_control_world) = OverlayOpen
  ∧ focusSet (after (command SetMode) last_control_world) = []
  ∧ focusIndex (after (command SetMode) last_control_world) = 2%Z
  ∧ focusIndex (after (command SetMode) last_control_world) ≠ 0%Z
  ∧ focusIndex (after (deliver (PointerClick 0)) last_control_world) = 2%Z.
Proof. vm_compute. repeat split. discriminate. Qed.

(** ** C5 and C6: commands that do nothing *)

(** C5.  On an empty focus set [activateFocusedElement] returns and
    leaves the whole world, trace of calls included, as it was: no
    [click()] is issued and nothing is written. *)
Theorem activate_on_empty_set w :
  focusSet w = [] → activateFocusedElement w = (Returned tt, w).
Proof.
  unfold focusSet. intros E.
  unfold activateFocusedElement, bind, this. simpl.
  rewrite E, index_empty. reflexivity.
Qed.

Lemma activate_on_empty_set_witness :
  focusSet (after (command SetMode) last_control_world) = []
  ∧ activateFocusedElement (after (command SetMode) last_control_world)
    = (Returned tt, after (command SetMode) last_control_world).
Proof.
  assert (focusSet (after (command SetMode) last_control_world) = []) as E.
  { vm_compute. reflexivity. }
  split; [exact E|].
  apply (activate_on_empty_set _ E).
Defined.

(** C6.  In normal mode [closeDropdown] returns and leaves the whole
    world as it was, hence the mode, the focus index and the focus
    set. *)
Theorem closeDropdown_in_normal_mode w :
  navigationMode w = Normal → closeDropdown w = (Returned tt, w).
Proof.
  unfold navigationMode. intros E.
  unfold closeDropdown, bind, this. simpl.
  destruct (isDropdownOpen (app w)); [discriminate|reflexivity].
Qed.

Lemma closeDropdown_in_normal_mode_witness :
  navigationMode loaded_world = Normal
  ∧ closeDropdown loaded_world = (Returned tt, loaded_world).
Proof.
  assert (navigationMode loaded_world = Normal) as E.
  { vm_compute. reflexivity. }
  split; [exact E|].
  apply (closeDropdown_in_normal_mode _ E).
Defined.

(** ** C7: a refresh does not touch the navigation *)

Lemma deliver_refresh_keeps_navigation w ev :
  is_refresh_event w ev = true →
  keeps navigation w (after (deliver ev) w).
Proof.
  destruct ev as [key|target|id|r|body timeString|]; simpl; try discriminate.
  - unfold after, bind at 1, ask. simpl.
    destruct (list_find _ _) as [[i [id' [repeating cb]]]|]; [|discriminate].
    destruct cb; [discriminate|]. intros _.
    match goal with
    | |- keeps _ _ (?m w).2 =>
        assert (preserves (keeps navigation) m) as Hm by (simpl; frame)
    end.
    apply Hm.
  - intros _.
    assert (preserves (keeps navigation) (deliver (FetchSettled r))) as Hm
      by (simpl; frame).
    apply Hm.
  - intros _.
    assert (preserves (keeps navigation)
              (deliver (JsonSettled body timeString))) as Hm
      by (simpl; frame).
    apply Hm.
Qed.

(** C7.  Whatever steps of data refreshes run (ticks of the interval,
    arrivals of responses and of their bodies, in any number and order)
    and in whatever world, the mode, the focus index and the focus set are
    afterwards what they were; and so they are after the delivery of any
    event of a refresh, the overlay open or not. *)
Theorem refresh_keeps_navigation steps w :
  (navigationMode (foldl (λ w s, after (refresh s) w) w steps)
   = navigationMode w
   ∧ focusIndex (foldl (λ w s, after (refresh s) w) w steps) = focusIndex w
   ∧ focusSet (foldl (λ w s, after (refresh s) w) w steps) = focusSet w)
  ∧ ∀ ev, is_refresh_event w ev = true →
          navigationMode (after (deliver ev) w) = navigationMode w
          ∧ focusIndex (after (deliver ev) w) = focusIndex w
          ∧ focusSet (after (deliver ev) w) = focusSet w.
Proof.
  assert (∀ w', keeps navigation w w' →
                navigationMode w' = navigationMode w
                ∧ focusIndex w' = focusIndex w ∧ focusSet w' = focusSet w)
    as Hnav.
  { intros w' H. unfold keeps, navigation in H. injection H as Hm Hs Hi.
    unfold navigationMode, focusIndex, focusSet. by rewrite Hm, Hs, Hi. }
  split.
  - apply Hnav. clear Hnav.
    revert w. induction steps as [|s steps IH]; intros w; simpl.
    + reflexivity.
    + etransitivity; [|apply IH].
      by apply (keeps_refresh navigation).
  - intros ev Hev. by apply Hnav, deliver_refresh_keeps_navigation.
Qed.

Lemma refresh_keeps_navigation_witness :
  is_refresh_event overlay_world (TimerFired 2) = true
  ∧ navigationMode (after (deliver (TimerFired 2)) overlay_world) = OverlayOpen
  ∧ focusIndex (after (deliver (TimerFired 2)) overlay_world) = 1%Z.
Proof.
  assert (is_refresh_event overlay_world (TimerFired 2) = true) as Hev.
  { vm_compute. reflexivity. }
  split; [exact Hev|].
  destruct (proj2 (refresh_keeps_navigation [] overlay_world) _ Hev)
    as (-> & -> & _).
  split; vm_compute; reflexivity.
Defined.

(** ** C8: what the focus set holds *)

Lemma elem_of_positions p doc : ∀ i n,
  n ∈ positions p i doc ↔ ∃ e, i ≤ n ∧ doc !! (n - i) = Some e ∧ p n e = true.
Proof.
  induction doc as [|e0 doc IH]; intros i n; simpl.
  - split; [by intros ?%elem_of_nil|by intros (e & _ & ? & _)].
  - assert (n ∈ positions p (S i) doc
            ↔ ∃ e, i < n ∧ (e0 :: doc) !! (n - i) = Some e ∧ p n e = true)
      as Hrest.
    { rewrite IH. split; intros (e & Hn & He & Hp); exists e;
        (split; [lia|split; [|done]]).
      - replace (n - i) with (S (n - S i)) by lia. done.
      - replace (n - i) with (S (n - S i)) in He by lia. done. }
    destruct (p i e0) eqn:Hp0.
    + rewrite elem_of_cons, Hrest. split.
      * intros [->|(e & Hn & He & Hp)].
        -- exists e0. rewrite Nat.sub_diag. done.
        -- exists e. split; [lia|done].
      * intros (e & Hn & He & Hp).
        destruct (decide (n = i)) as [->|Hne]; [by left|].
        right. exists e. split; [lia|done].
    + rewrite Hrest. split.
      * intros (e & Hn & He & Hp). exists e. split; [lia|done].
      * intros (e & Hn & He & Hp).
        destruct (decide (n = i)) as [->|Hne].
        -- rewrite Nat.sub_diag in He. simpl in He. congruence.
        -- exists e. split; [lia|done].
Qed.

Lemma positions_sorted p doc : ∀ i, StronglySorted lt (positions p i doc).
Proof.
  induction doc as [|e0 doc IH]; intros i; simpl; [constructor|].
  destruct (p i e0); [|apply IH].
  constructor; [apply IH|].
  apply Forall_forall. intros n (e & Hn & _)%elem_of_positions. lia.
Qed.

Lemma sorted_NoDup (l : list nat) : StronglySorted lt l → NoDup l.
Proof.
  induction 1 as [|n l _ IH Hall]; constructor; [|done].
  intros Hin. rewrite Forall_forall in Hall. specialize (Hall n Hin). lia.
Qed.

Lemma found_by_id id doc el :
  fst <$> list_find (has_id id) doc = Some el →
  ∃ e, doc !! el = Some e ∧ el_attached e = true ∧ el_id e = Some id.
Proof.
  destruct (list_find _ _) as [[i e]|] eqn:E; [|discriminate].
  intros [= <-]. apply list_find_Some in E as (He & [Ha Hi] & _).
  by exists e.
Qed.

Lemma found_id id doc el :
  fst <$> list_find (has_id id) doc = Some el →
  doc !! el ≫= el_id = Some id.
Proof. intros (e & -> & _ & Hid)%found_by_id. exact Hid. Qed.

(** Two ids never name the same element. *)
Lemma found_distinct doc id1 id2 a b :
  id1 ≠ id2 →
  fst <$> list_find (has_id id1) doc = Some a →
  fst <$> list_find (has_id id2) doc = Some b →
  a ≠ b.
Proof.
  intros Hne H1%found_id H2%found_id ->. congruence.
Qed.

(** The candidates of normal mode, once the [null]s are dropped. *)
Lemma found_elem (doc : list Element) el :
  el ∈ omap id [ fst <$> list_find (has_id "citySelector") doc;
                 fst <$> list_find (has_id "range24h") doc;
                 fst <$> list_find (has_id "range48h") doc ]
  ↔ ∃ i, i ∈ ["citySelector"; "range24h"; "range48h"]
         ∧ fst <$> list_find (has_id i) doc = Some el.
Proof.
  rewrite list_elem_of_omap. split.
  - intros (found & Hin & Hid). simpl in Hid. subst found.
    rewrite !elem_of_cons, elem_of_nil in Hin.
    destruct Hin as [H|[H|[H|[]]]];
      [exists "citySelector"|exists "range24h"|exists "range48h"];
      (split; [rewrite !elem_of_cons; auto|done]).
  - intros (i & Hi & Hfound). exists (Some el). split; [|done].
    rewrite <- Hfound. rewrite !elem_of_cons, elem_of_nil in Hi.
    rewrite !elem_of_cons.
    destruct Hi as [->|[->|[->|[]]]]; auto.
Qed.

Lemma found_NoDup (doc : list Element) :
  NoDup (omap id [ fst <$> list_find (has_id "citySelector") doc;
                   fst <$> list_find (has_id "range24h") doc;
                   fst <$> list_find (has_id "range48h") doc ]).
Proof.
  destruct (fst <$> list_find (has_id "citySelector") doc) as [a|] eqn:Ea;
    destruct (fst <$> list_find (has_id "range24h") doc) as [b|] eqn:Eb;
    destruct (fst <$> list_find (has_id "range48h") doc) as [c|] eqn:Ec;
    simpl;
    try pose proof (found_distinct doc "citySelector" "range24h" _ _
                      ltac:(done) Ea Eb);
    try pose proof (found_distinct doc "citySelector" "range48h" _ _
                      ltac:(done) Ea Ec);
    try pose proof (found_distinct doc "range24h" "range48h" _ _
                      ltac:(done) Eb Ec);
    repeat constructor; rewrite ?not_elem_of_cons; repeat split;
    try done; apply not_elem_of_nil.
Qed.

Lemma found_order (doc : list Element) :
  ((λ el, doc !! el ≫= el_id)
     <$> omap id [ fst <$> list_find (has_id "citySelector") doc;
                   fst <$> list_find (has_id "range24h") doc;
                   fst <$> list_find (has_id "range48h") doc ])
    `sublist_of` [Some "citySelector"; Some "range24h"; Some "range48h"].
Proof.
  destruct (fst <$> list_find (has_id "citySelector") doc) as [a|] eqn:Ea;
    destruct (fst <$> list_find (has_id "range24h") doc) as [b|] eqn:Eb;
    destruct (fst <$> list_find (has_id "range48h") doc) as [c|] eqn:Ec;
    csimpl;
    rewrite ?(found_id _ _ _ Ea), ?(found_id _ _ _ Eb), ?(found_id _ _ _ Ec);
    repeat first [apply sublist_nil | apply sublist_skip | apply sublist_cons].
Qed.

(** C8, amended.  [updateFocusableElements] always returns and changes
    nothing but the focus set.  The new set has no duplicates and holds
    only elements that exist in the document.  With the overlay open it
    is the [.city-option] elements of the document, all of them, in
    document order; otherwise it is what [getElementById] finds for
    [citySelector], [range24h] and [range48h], in this fixed order.
    Whether an element is disabled or hidden plays no part. *)
Theorem focus_set_recomputed w :
  result updateFocusableElements w = Returned tt
  ∧ browser (after updateFocusableElements w) = browser w
  ∧ navigationMode (after updateFocusableElements w) = navigationMode w
  ∧ focusIndex (after updateFocusableElements w) = focusIndex w
  ∧ NoDup (focusSet (after updateFocusableElements w))
  ∧ (∀ el, el ∈ focusSet (after updateFocusableElements w) →
           ∃ e, elements (browser w) !! el = Some e ∧ el_attached e = true)
  ∧ (navigationMode w = OverlayOpen →
     StronglySorted lt (focusSet (after updateFocusableElements w))
     ∧ ∀ el, el ∈ focusSet (after updateFocusableElements w)
             ↔ ∃ e, elements (browser w) !! el = Some e
                    ∧ el_attached e = true
                    ∧ "city-option" ∈ el_classes e)
  ∧ (navigationMode w = Normal →
     ((λ el, elements (browser w) !! el ≫= el_id)
        <$> focusSet (after updateFocusableElements w))
       `sublist_of` [Some "citySelector"; Some "range24h"; Some "range48h"]
     ∧ ∀ el, el ∈ focusSet (after updateFocusableElements w)
             ↔ ∃ id, id ∈ ["citySelector"; "range24h"; "range48h"]
                     ∧ result (getElementById id) w = Returned (Some el)).
Proof.
  unfold result, after, navigationMode, focusIndex, focusSet.
  rewrite updateFocusableElements_run.
  set (doc := elements (browser w)).
  remember (if isDropdownOpen (app w) then _ else _) as els eqn:Hels.
  simpl. do 4 (split; [done|]).
  destruct (isDropdownOpen (app w)) eqn:Hopen; subst els.
  - (* the overlay is open *)
    assert (∀ el,
      el ∈ positions (λ _ e, el_attached e
                             && bool_decide ("city-option" ∈ el_classes e)) 0 doc
      ↔ ∃ e, doc !! el = Some e ∧ el_attached e = true
             ∧ "city-option" ∈ el_classes e) as Hin.
    { intros el. rewrite elem_of_positions. rewrite Nat.sub_0_r.
      split.
      - intros (e & _ & He & [Ha Hc%bool_decide_eq_true]%andb_true_iff).
        by exists e.
      - intros (e & He & Ha & Hc). exists e.
        split; [lia|split; [done|]].
        apply andb_true_iff. split; [done|by apply bool_decide_eq_true]. }
    split; [apply sorted_NoDup, positions_sorted|].
    split; [|split; [|discriminate]].
    + intros el (e & He & Ha & _)%Hin. by exists e.
    + intros _. split; [apply positions_sorted|exact Hin].
  - (* normal mode *)
    unfold getElementById, ask. cbn [fst]. fold doc.
    split; [apply found_NoDup|].
    split; [|split; [discriminate|]].
    + intros el (i & _ & (e & He & Ha & _)%found_by_id)%found_elem.
      by exists e.
    + intros _. split; [apply found_order|].
      intros el. rewrite found_elem.
      split; intros (i & Hi & Hfound); exists i; (split; [done|]).
      * by rewrite Hfound.
      * by injection Hfound.
Qed.

Lemma focus_set_recomputed_witness :
  navigationMode overlay_world = OverlayOpen
  ∧ StronglySorted lt (focusSet (after updateFocusableElements overlay_world))
  ∧ NoDup (focusSet (after updateFocusableElements overlay_world)).
Proof.
  assert (navigationMode overlay_world = OverlayOpen) as Hopen.
  { vm_compute. reflexivity. }
  split; [exact Hopen|].
  destruct (focus_set_recomputed overlay_world)
    as (_ & _ & _ & _ & Hnodup & _ & Hoverlay & _).
  split; [exact (proj1 (Hoverlay Hopen))|exact Hnodup].
Defined.

(** C8 as stated fails on the elements that cannot be acted on: on
    the sample page with its 24h button disabled, the focus set computed
    at start-up holds that button, and one press of the right arrow puts
    the focus on it. *)
Lemma disabled_control_in_focus_set :
  focusSet (session disabled_page empty_store []) = [0; 3; 4]
  ∧ el_disabled <$> elements (browser (session disabled_page empty_store [])) !! 3
    = Some true
  ∧ Js.index (focusSet (session disabled_page empty_store [KeyDown "ArrowRight"]))
      (focusIndex (session disabled_page empty_store [KeyDown "ArrowRight"]))
    = Some 3
  ∧ ¬ Forall (λ el, ∃ e, elements (browser (session disabled_page empty_store []))
                           !! el = Some e
                         ∧ interactable e)
        (focusSet (session disabled_page empty_store [])).
Proof.
  assert (focusSet (session disabled_page empty_store []) = [0; 3; 4]) as Hs.
  { vm_compute. reflexivity. }
  assert (el_disabled
            <$> elements (browser (session disabled_page empty_store [])) !! 3
          = Some true) as Hd.
  { vm_compute. reflexivity. }
  split; [exact Hs|]. split; [exact Hd|]. split; [vm_compute; reflexivity|].
  rewrite Hs. intros Hall.
  apply Forall_cons in Hall as [_ Hall].
  apply Forall_cons in Hall as [(e & He & _ & Hdis & _) _].
  rewrite He in Hd. simpl in Hd. congruence.
Qed.

(** The order in normal mode is the one of the source, not the one of
    the document: on a page that declares the 48h button first, the
    button still comes last. *)
Example normal_order_is_fixed :
  focusSet (session reordered_page empty_store []) = [1; 4; 0].
Proof. vm_compute. reflexivity. Qed.

(** ** C9: the saved city *)

Lemma saveCity_run cityKey w :
  saveCity cityKey w
  = match ls_status (localStorage (browser w)) with
    | StoreOk =>
        (Returned tt,
         {| app := app w;
            browser :=
              set_localStorage
                {| ls_status := StoreOk;
                   ls_items := <["appleTV_selectedCity" := Js.to_string cityKey]>
                                 (ls_items (localStorage (browser w))) |}
                (browser w) |})
    | StoreFull =>
        (Returned tt,
         {| app := app w;
            browser :=
              add_effect
                (ConsoleWarn "Could not save city to localStorage:"
                   (StorageException "QuotaExceededError")) (browser w) |})
    | StoreDenied =>
        (Returned tt,
         {| app := app w;
            browser :=
              add_effect
                (ConsoleWarn "Could not save city to localStorage:"
                   (StorageException "SecurityError")) (browser w) |})
    end.
Proof.
  unfold saveCity, try_catch, setItem, bind, ask, tell, effect, throw. simpl.
  by destruct (ls_status (localStorage (browser w))).
Qed.

Lemma loadSavedCity_run w :
  loadSavedCity w
  = match ls_status (localStorage (browser w)) with
    | StoreDenied =>
        (Returned None,
         {| app := app w;
            browser :=
              add_effect
                (ConsoleWarn "Could not load city from localStorage:"
                   (StorageException "SecurityError")) (browser w) |})
    | _ =>
        (Returned (ls_items (localStorage (browser w)) !! "appleTV_selectedCity"),
         w)
    end.
Proof.
  unfold loadSavedCity, try_catch, getItem, bind, ask, tell, effect, throw, ret.
  simpl. by destruct (ls_status (localStorage (browser w))).
Qed.

(** The city the constructor starts from is the one it computed from the
    store: [init] does not assign [currentCity]. *)
Lemma constructor_city w v w1 :
  loadSavedCity w = (Returned v, w1) →
  currentCity (app (after constructor w)) = Some (Js.or_default v "tokyo").
Proof.
  intros E. unfold after, constructor.
  erewrite bind_returned by exact E.
  unfold bind at 1, assign. simpl.
  unfold bind at 1. simpl.
  unfold bind at 1. simpl.
  unfold bind at 1. simpl.
  unfold bind at 1. simpl.
  unfold bind at 1. simpl.
  unfold bind at 1. simpl.
  unfold bind at 1. simpl.
  match goal with
  | |- currentCity (app (init ?w2).2) = _ =>
      pose proof (keeps_init currentCity ltac:(done) ltac:(done) w2) as H
  end.
  unfold keeps, after in H. rewrite H. reflexivity.
Qed.

(** C9.  [saveCity] and [loadSavedCity] return in every world, whatever
    the state of the store, and write no field of [this].  A save the
    store refuses leaves the store as it was and logs a warning.  A load
    the store refuses logs a warning and yields [null], which is also
    what a readable store without a saved value yields; in both cases the
    constructor starts from ['tokyo']. *)
Theorem persistence_never_throws w cityKey :
  (result (saveCity cityKey) w = Returned tt
   ∧ app (after (saveCity cityKey) w) = app w
   ∧ ∃ v, result loadSavedCity w = Returned v
          ∧ app (after loadSavedCity w) = app w
          ∧ currentCity (app (after constructor w))
            = Some (Js.or_default v "tokyo"))
  ∧ (ls_status (localStorage (browser w)) ≠ StoreOk →
     ∃ e, localStorage (browser (after (saveCity cityKey) w))
          = localStorage (browser w)
          ∧ effects (browser (after (saveCity cityKey) w))
            = effects (browser w)
              ++ [ConsoleWarn "Could not save city to localStorage:" e])
  ∧ (ls_status (localStorage (browser w)) = StoreDenied →
     result loadSavedCity w = Returned None
     ∧ effects (browser (after loadSavedCity w))
       = effects (browser w)
         ++ [ConsoleWarn "Could not load city from localStorage:"
               (StorageException "SecurityError")]
     ∧ currentCity (app (after constructor w)) = Some "tokyo")
  ∧ (ls_status (localStorage (browser w)) ≠ StoreDenied →
     ls_items (localStorage (browser w)) !! "appleTV_selectedCity" = None →
     result loadSavedCity w = Returned None
     ∧ currentCity (app (after constructor w)) = Some "tokyo").
Proof.
  pose proof (saveCity_run cityKey w) as Hsave.
  pose proof (loadSavedCity_run w) as Hload.
  pose proof (constructor_city w) as Hcity.
  unfold result, after in *.
  destruct (ls_status (localStorage (browser w))) eqn:Hstatus;
    rewrite Hsave, Hload in *; simpl;
    (split; [repeat split; eexists; repeat split; eapply Hcity; reflexivity|]);
    (split; [intros ?; try done; eexists; split; reflexivity|]);
    (split; [intros ?; try done; repeat split;
             apply (Hcity None _ eq_refl)|]);
    intros ? Hnone; try done; rewrite Hnone in *;
    (split; [done|apply (Hcity None _ eq_refl)]).
Qed.

Lemma persistence_never_throws_witness :
  ls_status (localStorage (browser (page sample_page denied_store)))
  = StoreDenied
  ∧ result loadSavedCity (page sample_page denied_store) = Returned None
  ∧ currentCity (app (after constructor (page sample_page denied_store)))
    = Some "tokyo".
Proof.
  assert (ls_status (localStorage (browser (page sample_page denied_store)))
          = StoreDenied) as Hs.
  { vm_compute. reflexivity. }
  split; [exact Hs|].
  destruct (proj1 (proj2 (proj2
              (persistence_never_throws (page sample_page denied_store) None)))
              Hs) as (Hr & _ & Hc).
  split; [exact Hr|exact Hc].
Defined.

(** ** C10: the hour taken for the present *)

Lemma slice_window {A} (arr : list A) (a b : Z) :
  (0 ≤ a ≤ b)%Z →
  Js.slice arr a b = drop (Z.to_nat a) (take (Z.to_nat b) arr).
Proof.
  intros Hab. unfold Js.slice.
  destruct (Z.ltb_spec a 0); [lia|]. destruct (Z.ltb_spec b 0); [lia|].
  destruct (decide (Z.of_nat (length arr) ≤ a)%Z) as [Hlen|Hlen].
  - rewrite (Z.min_r a), (Z.min_r b) by lia.
    rewrite Z.sub_diag. simpl.
    symmetry. apply drop_ge. rewrite length_take. lia.
  - rewrite (Z.min_l a) by lia.
    rewrite take_drop_commute. f_equal.
    destruct (decide (Z.of_nat (length arr) ≤ b)%Z).
    + rewrite (Z.min_r b) by lia. rewrite !take_ge; [done|lia|lia].
    + rewrite (Z.min_l b) by lia. f_equal. lia.
Qed.


Lemma index_lookup {A} (arr : list A) (n : nat) :
  Js.index arr (Z.of_nat n) = arr !! n.
Proof.
  unfold Js.index. destruct (Z.ltb_spec (Z.of_nat n) 0); [lia|].
  by rewrite Nat2Z.id.
Qed.


(** *** The panel of the current weather *)


















(** * Further properties of the code *)

(** ** Keys *)

(** X1.  A key that [handleKeyDown] has no case for is ignored: the
    handler returns and the world is as it was, so the default action of
    the key is not prevented; the same holds for the delivery of the
    key. *)
Theorem unhandled_key_ignored key w :
  key ∉ handled_keys →
  handleKeyDown key w = (Returned tt, w)
  ∧ deliver (KeyDown key) w = (Returned tt, w).
Proof.
  unfold handled_keys. rewrite !not_elem_of_cons. intros H.
  assert (handleKeyDown key w = (Returned tt, w)) as Hk.
  { unfold handleKeyDown, bind.
    destruct (decide (key ∈ _)) as [Hin|_].
    { rewrite !elem_of_cons, elem_of_nil in Hin. tauto. }
    simpl. repeat (case_decide; [tauto|]). done. }
  split; [exact Hk|].
  unfold deliver, bind, ask, reported, try_catch. simpl.
  destruct (keydownListener (browser w)); [|done].
  by rewrite Hk.
Qed.

Lemma unhandled_key_ignored_witness :
  ("Tab" ∉ handled_keys)
  ∧ deliver (KeyDown "Tab") overlay_world = (Returned tt, overlay_world).
Proof.
  assert ("Tab" ∉ handled_keys) as H.
  { unfold handled_keys. rewrite !not_elem_of_cons.
    repeat split; try discriminate. apply not_elem_of_nil. }
  split; [exact H|].
  exact (proj2 (unhandled_key_ignored "Tab" overlay_world H)).
Defined.

(** ** Moving back and forth *)

Lemma bind_after {A B} (m : M A) (k : A → M B) w a :
  result m w = Returned a →
  result (x <- m ;; k x) w = result (k a) (after m w)
  ∧ after (x <- m ;; k x) w = after (k a) (after m w).
Proof.
  unfold result, after, bind.
  destruct (m w) as [[a'|e] w1]; simpl; [|discriminate].
  by intros [= ->].
Qed.

(** X2.  On a non-empty focus set and from an index in range,
    [focusNext] followed by [focusPrevious] comes back to the index,
    except on the last element, from where it ends one before the last;
    [focusPrevious] followed by [focusNext] comes back to the index,
    except on the first element, from where it ends on the second (if
    there is one). *)
Theorem next_and_previous_undo_each_other w :
  focusSet w ≠ [] →
  (0 ≤ focusIndex w < Z.of_nat (length (focusSet w)))%Z →
  (result (focusNext ;; focusPrevious) w = Returned tt
   ∧ (focusIndex w < Z.of_nat (length (focusSet w)) - 1 →
      focusIndex (after (focusNext ;; focusPrevious) w) = focusIndex w)%Z
   ∧ (focusIndex w = Z.of_nat (length (focusSet w)) - 1 →
      focusIndex (after (focusNext ;; focusPrevious) w)
      = Z.max 0 (focusIndex w - 1))%Z)
  ∧ (result (focusPrevious ;; focusNext) w = Returned tt
     ∧ (0 < focusIndex w →
        focusIndex (after (focusPrevious ;; focusNext) w) = focusIndex w)%Z
     ∧ (focusIndex w = 0 →
        focusIndex (after (focusPrevious ;; focusNext) w)
        = Z.min 1 (Z.of_nat (length (focusSet w)) - 1))%Z).
Proof.
  intros Hne Hi. split.
  - destruct (focusNext_spec w Hne) as (Hr & Hs & Hx).
    destruct (bind_after focusNext (λ _, focusPrevious) w tt Hr) as [-> ->].
    destruct (focusPrevious_spec (after focusNext w)) as (Hr' & _ & Hx');
      [by rewrite Hs|].
    rewrite Hr', Hx', Hs, Hx. unfold clamp. repeat split; lia.
  - destruct (focusPrevious_spec w Hne) as (Hr & Hs & Hx).
    destruct (bind_after focusPrevious (λ _, focusNext) w tt Hr) as [-> ->].
    destruct (focusNext_spec (after focusPrevious w)) as (Hr' & _ & Hx');
      [by rewrite Hs|].
    rewrite Hr', Hx', Hs, Hx. unfold clamp. repeat split; lia.
Qed.

Lemma next_and_previous_undo_each_other_witness :
  focusSet overlay_world ≠ []
  ∧ (0 ≤ focusIndex overlay_world
     < Z.of_nat (length (focusSet overlay_world)))%Z
  ∧ focusIndex (after (focusNext ;; focusPrevious) overlay_world)
    = focusIndex overlay_world.
Proof.
  assert (focusSet overlay_world ≠ []) as Hne.
  { vm_compute. discriminate. }
  assert (0 ≤ focusIndex overlay_world
          < Z.of_nat (length (focusSet overlay_world)))%Z as Hi.
  { vm_compute. split; [discriminate|reflexivity]. }
  split; [exact Hne|]. split; [exact Hi|].
  apply (proj1 (next_and_previous_undo_each_other overlay_world Hne Hi)).
  vm_compute. reflexivity.
Defined.

(** ** The weather icon *)

(** X3.  The chain of tests of [updateWeatherIcon] sorts the codes into
    seven ranges that cover all numbers: 0 is the sun; every other code up
    to 3, the negative ones included, is the partly clouded sun; then come
    the ranges that end at 48, 67, 77 and 82; anything above 82 is the
    bolt, and so is a code that is missing from the response.  A code
    that is [null] counts as a number up to 3 that is not 0: it is the
    partly clouded sun. *)
Theorem icon_by_range code :
  ((code == 0)%Q → iconClass (Some (Num code)) = ["fas"; "fa-sun"])
  ∧ ((code < 0 ∨ 0 < code <= 3 # 1)%Q →
     iconClass (Some (Num code)) = ["fas"; "fa-cloud-sun"])
  ∧ ((3 # 1 < code <= 48 # 1)%Q →
     iconClass (Some (Num code)) = ["fas"; "fa-cloud"])
  ∧ ((48 # 1 < code <= 67 # 1)%Q →
     iconClass (Some (Num code)) = ["fas"; "fa-cloud-rain"])
  ∧ ((67 # 1 < code <= 77 # 1)%Q →
     iconClass (Some (Num code)) = ["fas"; "fa-snowflake"])
  ∧ ((77 # 1 < code <= 82 # 1)%Q →
     iconClass (Some (Num code)) = ["fas"; "fa-cloud-showers-heavy"])
  ∧ ((82 # 1 < code)%Q → iconClass (Some (Num code)) = ["fas"; "fa-bolt"])
  ∧ iconClass None = ["fas"; "fa-bolt"]
  ∧ iconClass (Some Null) = ["fas"; "fa-cloud-sun"].
Proof.
  unfold iconClass, is_zero, at_most.
  destruct (Qeq_bool code 0) eqn:E0;
    [apply Qeq_bool_iff in E0|apply Qeq_bool_neq in E0];
    repeat match goal with
      | |- context [Qle_bool code ?b] =>
          let E := fresh "E" in
          destruct (Qle_bool code b) eqn:E;
          [apply Qle_bool_iff in E
          |apply not_true_iff_false in E; rewrite Qle_bool_iff in E;
           apply Qnot_le_lt in E]
      end;
    repeat split; try reflexivity; intros H; exfalso; lra.
Qed.

Lemma icon_by_range_witness :
  ((3 # 1 < 45 # 1 <= 48 # 1)%Q)
  ∧ iconClass (Some (Num (45 # 1))) = ["fas"; "fa-cloud"].
Proof.
  assert (3 # 1 < 45 # 1 <= 48 # 1)%Q as H.
  { split; vm_compute; [reflexivity|discriminate]. }
  split; [exact H|].
  exact (proj1 (proj2 (proj2 (icon_by_range (45 # 1)%Q))) H).
Defined.

(** ** The chart *)

(** X4.  When the response holds more than 24 hours, the past and the
    future series of [drawChart] overlap in one point, the hour of index
    24: it is the last point of the past temperatures and the first point
    of the future ones, and likewise for the precipitation. *)
Theorem past_and_future_share_now hourly_ range :
  (0 ≤ range)%Z →
  24 < length (temperature_2m hourly_) →
  24 < length (precipitation hourly_) →
  (∃ temp,
     temperature_2m hourly_ !! 24 = Some temp
     ∧ last (pastTemperature (chartData hourly_ range))
       = Some {| pt_x := time hourly_ !! 24; pt_y := temp |}
     ∧ head (futureTemperature (chartData hourly_ range))
       = Some {| pt_x := time hourly_ !! 24; pt_y := temp |})
  ∧ (∃ rain,
       precipitation hourly_ !! 24 = Some rain
       ∧ last (pastPrecipitation (chartData hourly_ range))
         = Some {| pt_x := time hourly_ !! 24; pt_y := rain |}
       ∧ head (futurePrecipitation (chartData hourly_ range))
         = Some {| pt_x := time hourly_ !! 24; pt_y := rain |}).
Proof.
  intros Hrange Htemps Hprecip.
  assert (∀ arr : list Value, 24 < length arr →
    ∃ v, arr !! 24 = Some v
         ∧ last (points (Js.slice (time hourly_) 0 (24 + 1))
                   (Js.slice arr 0 (24 + 1)))
           = Some {| pt_x := time hourly_ !! 24; pt_y := v |}
         ∧ head (points (Js.slice (time hourly_) 24 (24 + range + 1))
                   (Js.slice arr 24 (24 + range + 1)))
           = Some {| pt_x := time hourly_ !! 24; pt_y := v |}) as H.
  { intros arr Hlen.
    destruct (lookup_lt_is_Some_2 arr 24 Hlen) as [v Hv].
    exists v. split; [exact Hv|].
    rewrite !slice_window by lia.
    replace (Z.to_nat (24 + 1)) with 25 by lia.
    replace (Z.to_nat (24 + range + 1)) with (25 + Z.to_nat range) by lia.
    replace (Z.to_nat 24) with 24 by lia.
    replace (Z.to_nat 0) with 0 by lia.
    unfold points. split.
    - rewrite last_lookup, length_imap, length_drop, length_take.
      replace (Init.Nat.pred (25 `min` length arr - 0)) with 24 by lia.
      rewrite list_lookup_imap, !lookup_drop, !lookup_take_lt by lia.
      simpl. by rewrite Hv.
    - rewrite head_lookup, list_lookup_imap, !lookup_drop.
      rewrite !lookup_take_lt by lia.
      replace (24 + 0) with 24 by lia. by rewrite Hv. }
  split; apply H; assumption.
Qed.

Lemma past_and_future_share_now_witness :
  (0 ≤ 24)%Z
  ∧ 24 < length (temperature_2m sample_hourly)
  ∧ last (pastTemperature (chartData sample_hourly 24))
    = head (futureTemperature (chartData sample_hourly 24)).
Proof.
  assert (0 ≤ 24)%Z as Hr by lia.
  assert (24 < length (temperature_2m sample_hourly)) as Ht.
  { vm_compute. lia. }
  assert (24 < length (precipitation sample_hourly)) as Hp.
  { vm_compute. lia. }
  split; [exact Hr|]. split; [exact Ht|].
  destruct (proj1 (past_and_future_share_now sample_hourly 24 Hr Ht Hp))
    as (temp & _ & -> & ->).
  reflexivity.
Defined.

(** X5.  [drawChart] without a stored response throws and changes
    nothing.  With a response and a canvas [#mainChart] in the page it
    returns, calls [destroy] on the chart it held, if any, before it
    creates the new one, and stores the new one.  With a response but
    without the element, or with an element that is not a canvas (it has
    no [getContext]), it throws after the old chart has been destroyed,
    creates no chart, and [this.chart] still refers to the destroyed
    chart. *)
Theorem drawChart_replaces_chart w :
  (weatherData (app w) = None →
   drawChart w = (Thrown (TypeError "weatherData"), w))
  ∧ (∀ data hourly_,
       weatherData (app w) = Some data → hourly data = Some hourly_ →
       (∀ el,
          result (getElementById "mainChart") w = Returned (Some el) →
          (el_tag <$> elements (browser w) !! el = Some "canvas" →
           result drawChart w = Returned tt
           ∧ chart (app (after drawChart w))
             = Some (chartData hourly_ (currentTimeRange (app w)))
           ∧ effects (browser (after drawChart w))
             = effects (browser w)
               ++ (if chart (app w) is Some _ then [ChartDestroy] else [])
               ++ [ChartCreate])
          ∧ (el_tag <$> elements (browser w) !! el ≠ Some "canvas" →
             result drawChart w = Thrown (TypeError "getContext")
             ∧ chart (app (after drawChart w)) = chart (app w)
             ∧ effects (browser (after drawChart w))
               = effects (browser w)
                 ++ (if chart (app w) is Some _ then [ChartDestroy] else [])))
       ∧ (result (getElementById "mainChart") w = Returned None →
          result drawChart w = Thrown (TypeError "mainChart")
          ∧ chart (app (after drawChart w)) = chart (app w)
          ∧ effects (browser (after drawChart w))
            = effects (browser w)
              ++ (if chart (app w) is Some _ then [ChartDestroy] else []))).
Proof.
  unfold result, after, drawChart, getContext, bind, this, deref,
    getElementById, ask, effect, tell, assign, ret, throw.
  simpl. split.
  - intros ->. reflexivity.
  - intros data h -> Hh. simpl. rewrite Hh. simpl.
    split.
    + intros el [= Hc]. split; intros Htag.
      * destruct (chart (app w)); simpl; rewrite Hc; simpl;
          rewrite decide_True by (exact Htag); simpl;
          rewrite <- ?app_assoc; by rewrite ?app_nil_r.
      * destruct (chart (app w)) eqn:Echart; simpl; rewrite Hc; simpl;
          rewrite decide_False by (exact Htag); simpl;
          by rewrite ?app_nil_r.
    + intros [= Hc].
      destruct (chart (app w)) eqn:Echart; simpl; rewrite Hc; simpl;
        by rewrite ?app_nil_r.
Qed.

Lemma drawChart_replaces_chart_witness :
  (weatherData (app refreshed_world) = Some sample_data
   ∧ result (getElementById "mainChart") refreshed_world = Returned (Some 16)
   ∧ result drawChart refreshed_world = Returned tt
   ∧ effects (browser (after drawChart refreshed_world))
     = effects (browser refreshed_world) ++ [ChartDestroy] ++ [ChartCreate])
  ∧ (weatherData (app div_chart_world) = Some sample_data
     ∧ result (getElementById "mainChart") div_chart_world
       = Returned (Some 16)
     ∧ result drawChart div_chart_world = Thrown (TypeError "getContext")
     ∧ chart (app (after drawChart div_chart_world)) = None).
Proof.
  assert (weatherData (app refreshed_world) = Some sample_data) as Hd.
  { vm_compute. reflexivity. }
  assert (result (getElementById "mainChart") refreshed_world
          = Returned (Some 16)) as Hc.
  { vm_compute. reflexivity. }
  assert (el_tag <$> elements (browser refreshed_world) !! 16
          = Some "canvas") as Ht.
  { vm_compute. reflexivity. }
  assert (weatherData (app div_chart_world) = Some sample_data) as Hd'.
  { vm_compute. reflexivity. }
  assert (result (getElementById "mainChart") div_chart_world
          = Returned (Some 16)) as Hc'.
  { vm_compute. reflexivity. }
  assert (el_tag <$> elements (browser div_chart_world) !! 16
          ≠ Some "canvas") as Ht'.
  { vm_compute. discriminate. }
  assert (chart (app div_chart_world) = None) as Hnone.
  { vm_compute. reflexivity. }
  split.
  - split; [exact Hd|]. split; [exact Hc|].
    destruct (proj1 (proj1 (proj2 (drawChart_replaces_chart refreshed_world)
                              sample_data sample_hourly Hd eq_refl) 16 Hc) Ht)
      as (Hr & _ & He).
    split; [exact Hr|]. rewrite He.
    assert (is_Some (chart (app refreshed_world))) as [c ->].
    { vm_compute. eexists. reflexivity. }
    reflexivity.
  - split; [exact Hd'|]. split; [exact Hc'|].
    destruct (proj2 (proj1 (proj2 (drawChart_replaces_chart div_chart_world)
                              sample_data sample_hourly Hd' eq_refl) 16 Hc')
                Ht')
      as (Hr & Hch & _).
    split; [exact Hr|]. rewrite Hch. exact Hnone.
Defined.

(** ** The refresh interval *)

(** X6.  When [this.autoRefreshInterval] holds a timer id (which is never
    0), [stopAutoRefresh] returns, clears the field and removes that timer
    and no other; afterwards the firing of that timer changes nothing, and
    a second [stopAutoRefresh] changes nothing. *)
Theorem stopAutoRefresh_stops w id :
  autoRefreshInterval (app w) = Some id →
  id ≠ 0 →
  result stopAutoRefresh w = Returned tt
  ∧ autoRefreshInterval (app (after stopAutoRefresh w)) = None
  ∧ (∀ t, t ∈ timers (browser (after stopAutoRefresh w))
          ↔ t ∈ timers (browser w) ∧ t.1 ≠ id)
  ∧ deliver (TimerFired id) (after stopAutoRefresh w)
    = (Returned tt, after stopAutoRefresh w)
  ∧ stopAutoRefresh (after stopAutoRefresh w)
    = (Returned tt, after stopAutoRefresh w).
Proof.
  intros Hid Hne.
  unfold result, after, stopAutoRefresh, bind, this, clearInterval, tell,
    assign.
  simpl. rewrite Hid. simpl.
  destruct (decide (id = 0)) as [|_]; [done|]. simpl.
  split; [done|]. split; [done|]. split; [|split].
  - intros t. rewrite list_elem_of_filter. tauto.
  - unfold deliver, bind, ask. simpl.
    destruct (list_find _ _) as [[i [id' cb]]|] eqn:E; [|done].
    apply list_find_Some in E as (Hin%list_elem_of_lookup_2 & Heq & _).
    apply list_elem_of_filter in Hin as [Hneq _]. simpl in *. done.
  - done.
Qed.

Lemma stopAutoRefresh_stops_witness :
  autoRefreshInterval (app loaded_world) = Some 2
  ∧ 2 ≠ 0
  ∧ autoRefreshInterval (app (after stopAutoRefresh loaded_world)) = None
  ∧ deliver (TimerFired 2) (after stopAutoRefresh loaded_world)
    = (Returned tt, after stopAutoRefresh loaded_world).
Proof.
  assert (autoRefreshInterval (app loaded_world) = Some 2) as Hid.
  { vm_compute. reflexivity. }
  assert (2 ≠ 0) as Hne by lia.
  split; [exact Hid|]. split; [exact Hne|].
  destruct (stopAutoRefresh_stops loaded_world 2 Hid Hne)
    as (_ & Hnone & _ & Hfire & _).
  split; [exact Hnone|exact Hfire].
Defined.

(** ** The saved city across sessions *)

(** The constructor is [init], run in a world where the eight fields
    have their first values. *)
Lemma constructor_init w v w1 :
  loadSavedCity w = (Returned v, w1) →
  ∃ w2, constructor w = init w2
        ∧ browser w2 = browser w1
        ∧ currentCity (app w2) = Some (Js.or_default v "tokyo").
Proof.
  intros E. unfold constructor.
  erewrite bind_returned by exact E.
  unfold bind at 1, assign. simpl.
  unfold bind at 1. simpl.
  unfold bind at 1. simpl.
  unfold bind at 1. simpl.
  unfold bind at 1. simpl.
  unfold bind at 1. simpl.
  unfold bind at 1. simpl.
  unfold bind at 1. simpl.
  eexists. split; [reflexivity|]. done.
Qed.

(** X7.  A city saved while the store accepts writes is the city the next
    session starts from: with the store [saveCity] leaves behind,
    [loadSavedCity] yields the key and the constructor sets [currentCity]
    to it, on any page.  The empty key is the exception: it is stored, but
    the next session starts from ['tokyo']. *)
Theorem saved_city_is_restored w key doc :
  ls_status (localStorage (browser w)) = StoreOk →
  result loadSavedCity
    (page doc (localStorage (browser (after (saveCity (Some key)) w))))
  = Returned (Some key)
  ∧ currentCity (app (after constructor
      (page doc (localStorage (browser (after (saveCity (Some key)) w))))))
    = Some (if decide (key = "") then "tokyo" else key).
Proof.
  intros Hok.
  assert (loadSavedCity
            (page doc (localStorage (browser (after (saveCity (Some key)) w))))
          = (Returned (Some key),
             page doc (localStorage (browser (after (saveCity (Some key)) w)))))
    as Hload.
  { rewrite loadSavedCity_run. unfold after. rewrite saveCity_run, Hok.
    simpl. by rewrite lookup_insert_eq. }
  split.
  - unfold result. by rewrite Hload.
  - by rewrite (constructor_city _ _ _ Hload).
Qed.

Lemma saved_city_is_restored_witness :
  ls_status (localStorage (browser overlay_world)) = StoreOk
  ∧ currentCity (app (after constructor
      (page sample_page
         (localStorage (browser (after (saveCity (Some "kyoto"))
                                   overlay_world))))))
    = Some "kyoto".
Proof.
  assert (ls_status (localStorage (browser overlay_world)) = StoreOk) as Hok.
  { vm_compute. reflexivity. }
  split; [exact Hok|].
  exact (proj2 (saved_city_is_restored overlay_world "kyoto" sample_page Hok)).
Defined.

Lemma fails_bind {A B} (P : World → Prop) (m : M A) (k : A → M B) :
  (∀ w, P w → P (after m w)) →
  (∀ a, fails P (k a)) →
  fails P (x <- m ;; k x).
Proof.
  intros Hm Hk w HP. specialize (Hm w HP).
  unfold result, after, bind in *.
  destruct (m w) as [[a|e] w1]; simpl in *.
  - apply (Hk a w1 Hm).
  - by exists e.
Qed.

Lemma unknown_city_kept {A} (m : M A) :
  preserves (keeps currentCity) m →
  ∀ w, unknown_city w → unknown_city (after m w).
Proof. intros Hm w. unfold unknown_city. by rewrite (Hm w). Qed.

Lemma init_fails_on_unknown_city : fails unknown_city init.
Proof.
  unfold init.
  apply fails_bind; [apply unknown_city_kept, keeps_effect|intros _].
  apply fails_bind;
    [apply unknown_city_kept, keeps_setupEventListeners|intros _].
  apply fails_bind;
    [by apply unknown_city_kept, keeps_updateFocusableElements|intros _].
  apply fails_bind;
    [apply unknown_city_kept, keeps_loadWeatherData|intros _].
  apply fails_bind;
    [by apply unknown_city_kept, keeps_startAutoRefresh|intros _].
  intros w Hw. unfold unknown_city in Hw.
  unfold result, bind, this, showSelectedCity. simpl. rewrite Hw. simpl.
  by eexists.
Qed.

(** X8.  The constructor does not check the saved city: when the store
    yields a non-empty key that [this.cities] does not have, not even by
    inheritance, the constructor throws on every page, at the latest when
    [init] looks up the name of the city. *)
Theorem unknown_saved_city_stops_constructor w saved :
  result loadSavedCity w = Returned (Some saved) →
  saved ≠ "" →
  cities_get (Some saved) = CityUndefined →
  ∃ e, result constructor w = Thrown e.
Proof.
  intros Hload Hne Hunknown.
  unfold result in Hload.
  destruct (loadSavedCity w) as [o w1] eqn:E. simpl in Hload. subst o.
  destruct (constructor_init w _ w1 E) as (w2 & Hc & _ & Hcity).
  unfold result. rewrite Hc.
  apply (init_fails_on_unknown_city w2).
  unfold unknown_city. rewrite Hcity. simpl.
  by destruct (decide (saved = "")).
Qed.

Lemma unknown_saved_city_stops_constructor_witness :
  result loadSavedCity (page sample_page paris_store) = Returned (Some "paris")
  ∧ cities_get (Some "paris") = CityUndefined
  ∧ ∃ e, result constructor (page sample_page paris_store) = Thrown e.
Proof.
  assert (result loadSavedCity (page sample_page paris_store)
          = Returned (Some "paris")) as Hl.
  { vm_compute. reflexivity. }
  assert (cities_get (Some "paris") = CityUndefined) as Hu.
  { vm_compute. reflexivity. }
  split; [exact Hl|]. split; [exact Hu|].
  apply (unknown_saved_city_stops_constructor _ "paris" Hl); [discriminate|].
  exact Hu.
Defined.

(** ** What the handlers never do to the browser *)

Lemma deliver_keeps_listeners ev :
  preserves (holds (same (λ b, (listeners b, keydownListener b)))) (deliver ev).
Proof. destruct ev; deep ltac:(intros; reflexivity). Qed.

(** X9.  Listeners are registered by the constructor only: whatever
    events are delivered, in whatever world, the click listeners and the
    keydown listener are afterwards the ones there were before. *)
Theorem events_register_no_listener evs w :
  listeners (browser (run evs w)) = listeners (browser w)
  ∧ keydownListener (browser (run evs w)) = keydownListener (browser w).
Proof.
  pose proof (preserves_run _ evs deliver_keeps_listeners w) as H.
  unfold holds, same in H. by injection H.
Qed.

#[global] Instance own_key_only_preorder : PreOrder own_key_only.
Proof.
  split.
  - by intros b.
  - intros b1 b2 b3 [Hs12 Hk12] [Hs23 Hk23]. split; [congruence|].
    intros key Hkey. rewrite Hk23, Hk12; done.
Qed.

Lemma setItem_own_key value :
  preserves (holds own_key_only) (setItem "appleTV_selectedCity" value).
Proof.
  intros w. unfold after, setItem, bind, ask, tell, throw, holds. simpl.
  destruct (ls_status (localStorage (browser w))) eqn:E; simpl;
    (split; [done|]); intros key Hkey; [|done..].
  cbn [set_localStorage localStorage ls_items].
  by rewrite lookup_insert_ne.
Qed.

#[local] Hint Resolve setItem_own_key : deep.

Ltac own_key_side := intros; split; [reflexivity|intros; reflexivity].

Lemma deliver_own_key ev : preserves (holds own_key_only) (deliver ev).
Proof. destruct ev; deep own_key_side. Qed.

Lemma domContentLoaded_own_key :
  preserves (holds own_key_only) domContentLoaded.
Proof. deep own_key_side. Qed.

(** X10.  The application writes the store under its own key only: in
    every session, on every page and from every store, the status of the
    store and the value under any other key are at the end what they were
    at the start. *)
Theorem store_touched_under_own_key_only doc store evs key :
  key ≠ "appleTV_selectedCity" →
  ls_items (localStorage (browser (session doc store evs))) !! key
  = ls_items store !! key
  ∧ ls_status (localStorage (browser (session doc store evs)))
    = ls_status store.
Proof.
  intros Hkey.
  assert (holds own_key_only (page doc store) (session doc store evs)) as [Hs Hk].
  { unfold session. etransitivity.
    - apply domContentLoaded_own_key.
    - apply (preserves_run _ evs deliver_own_key). }
  split; [by apply Hk|exact Hs].
Qed.

Lemma store_touched_under_own_key_only_witness :
  "theme" ≠ "appleTV_selectedCity"
  ∧ ls_items (localStorage (browser
      (session sample_page empty_store
         [KeyDown "Enter"; KeyDown "ArrowRight"; KeyDown "Enter"])))
    !! "theme" = None.
Proof.
  assert ("theme" ≠ "appleTV_selectedCity") as H by discriminate.
  split; [exact H|].
  exact (proj1 (store_touched_under_own_key_only sample_page empty_store
                  [KeyDown "Enter"; KeyDown "ArrowRight"; KeyDown "Enter"]
                  "theme" H)).
Defined.

(** ** Timers *)

#[global] Instance no_new_timer_preorder : PreOrder no_new_timer.
Proof.
  split.
  - by intros b.
  - intros b1 b2 b3 [Ht12 Hn12] [Ht23 Hn23]. split; [|congruence].
    by etransitivity.
Qed.

Ltac no_new_timer_side :=
  intros; split; [first [reflexivity|apply sublist_filter]|reflexivity].

Lemma deliver_no_new_timer ev : preserves (holds no_new_timer) (deliver ev).
Proof. destruct ev; deep no_new_timer_side. Qed.

Lemma triple_bind {A B} P (m : M A) (k : A → M B) Q Q' E :
  triple P m Q E → (∀ a, triple Q (k a) Q' E) → triple P (x <- m ;; k x) Q' E.
Proof.
  intros Hm Hk w HP. specialize (Hm w HP). unfold bind.
  destruct (m w) as [[a|e] w1]; [|exact Hm].
  apply (Hk a w1 Hm).
Qed.

(** A method that leaves the timers alone keeps a statement about
    them. *)
Lemma triple_frame {A} (m : M A) ts next (E : World → Prop) :
  preserves (holds (same (λ b, (timers b, nextTimer b)))) m →
  (∀ w, timers_are ts next w → E w) →
  triple (timers_are ts next) m (timers_are ts next) E.
Proof.
  intros Hm HE w [Ht Hn]. specialize (Hm w).
  unfold holds, same, after in Hm. injection Hm as Ht' Hn'.
  assert (timers_are ts next (m w).2) as H.
  { split; congruence. }
  destruct (m w) as [[a|e] w1]; simpl in *; [exact H|by apply HE].
Qed.

Lemma triple_setTimer repeating cb ts next (E : World → Prop) :
  triple (timers_are ts next) (setTimer repeating cb)
    (timers_are (ts ++ [(next, (repeating, cb))]) (S next)) E.
Proof.
  intros w [Ht Hn]. unfold setTimer, bind, ask, tell, ret. simpl.
  split; simpl; congruence.
Qed.

Lemma triple_end {A} (P : World → Prop) (m : M A) (Q E : World → Prop) :
  triple P m P E → (∀ w, P w → Q w) → triple P m Q E.
Proof.
  intros Hm HQ w HP. specialize (Hm w HP).
  destruct (m w) as [[a|e] w1]; [by apply HQ|exact Hm].
Qed.

Ltac same_side := intros; reflexivity.

(** A step of a start-up proof: a timer is set, or the timers are left
    alone. *)
Ltac startup_step :=
  first
    [ eapply triple_bind;
      [first [ apply triple_setTimer
             | apply triple_frame;
               [solve [deep same_side]
               |intros ? ?; unfold startup_timers; tauto] ]
      |intros ?] ].

Lemma setupEventListeners_timers :
  triple (timers_are [] 1) setupEventListeners
    (timers_are [(1, (false, FocusFirst))] 2) startup_timers.
Proof.
  unfold setupEventListeners. repeat startup_step.
  apply triple_frame; [deep same_side|].
  intros ? ?. unfold startup_timers. tauto.
Qed.

Lemma startAutoRefresh_timers :
  triple (timers_are [(1, (false, FocusFirst))] 2) startAutoRefresh
    (timers_are [(1, (false, FocusFirst)); (2, (true, AutoRefresh))] 3)
    startup_timers.
Proof.
  unfold startAutoRefresh. repeat startup_step.
  apply triple_frame; [deep same_side|].
  intros ? ?. unfold startup_timers. tauto.
Qed.

Lemma constructor_timers :
  triple (timers_are [] 1) constructor startup_timers startup_timers.
Proof.
  unfold constructor, init.
  repeat first
    [ startup_step
    | eapply triple_bind; [apply setupEventListeners_timers|intros ?]
    | eapply triple_bind; [apply startAutoRefresh_timers|intros ?] ].
  apply triple_end.
  - apply triple_frame; [deep same_side|].
    intros ? ?. unfold startup_timers. tauto.
  - intros ? ?. unfold startup_timers. tauto.
Qed.

Lemma domContentLoaded_timers doc store :
  startup_timers (after domContentLoaded (page doc store)).
Proof.
  pose proof (constructor_timers (page doc store)) as H.
  unfold after, domContentLoaded, reported, try_catch, bind.
  destruct (constructor (page doc store)) as [[[]|e] w1]; simpl;
    apply H; by split.
Qed.

(** X11.  In every session there are at most two timers, the single shot
    that focuses the first element and the refresh interval: the
    constructor sets each of them at most once, and no event sets a
    timer.  So there is never more than one refresh interval. *)
Theorem at_most_one_refresh_interval doc store evs :
  timers (browser (session doc store evs))
    `sublist_of` [(1, (false, FocusFirst)); (2, (true, AutoRefresh))].
Proof.
  unfold session.
  destruct (preserves_run _ evs deliver_no_new_timer
              (after domContentLoaded (page doc store))) as [Hsub _].
  etransitivity; [exact Hsub|].
  destruct (domContentLoaded_timers doc store) as [[-> _]|[[-> _]|[-> _]]].
  - apply sublist_nil_l.
  - by apply sublist_skip, sublist_nil_l.
  - reflexivity.
Qed.

(** ** Selecting a city *)

Lemma selectCity_run cityKey w :
  selectCity cityKey w
  = (showSelectedCity cityKey ;; closeDropdown ;; loadWeatherData)
      (after (saveCity cityKey)
         {| app := set_currentCity cityKey (app w); browser := browser w |}).
Proof.
  unfold selectCity. unfold bind at 1, assign. simpl.
  unfold after. rewrite (saveCity_run cityKey).
  unfold bind at 1. rewrite (saveCity_run cityKey). simpl.
  by destruct (ls_status (localStorage (browser w))).
Qed.

Lemma selectCity_rest_keeps_city cityKey :
  preserves (keeps currentCity)
    (showSelectedCity cityKey ;; closeDropdown ;; loadWeatherData).
Proof. deep ltac:(intros; reflexivity). Qed.

Lemma selectCity_rest_keeps_store cityKey :
  preserves (holds (same localStorage))
    (showSelectedCity cityKey ;; closeDropdown ;; loadWeatherData).
Proof. deep same_side. Qed.

(** X12.  [selectCity] records and saves the key before it looks the
    key up: whatever the key, [currentCity] is the key afterwards and,
    with a store that accepts writes, so is the saved value.  When the
    key is not in [this.cities], the method then throws, with the mode,
    the focus set and the focus index as they were: the overlay is not
    closed. *)
Theorem selectCity_records_before_checking cityKey w :
  currentCity (app (after (selectCity cityKey) w)) = cityKey
  ∧ (ls_status (localStorage (browser w)) = StoreOk →
     ls_items (localStorage (browser (after (selectCity cityKey) w)))
       !! "appleTV_selectedCity"
     = Some (Js.to_string cityKey))
  ∧ (cities_get cityKey = CityUndefined →
     (∃ e, result (selectCity cityKey) w = Thrown e)
     ∧ navigation (app (after (selectCity cityKey) w)) = navigation (app w)).
Proof.
  unfold result, after. rewrite selectCity_run.
  set (w1 := {| app := set_currentCity cityKey (app w); browser := browser w |}).
  split; [|split].
  - pose proof (selectCity_rest_keeps_city cityKey
                  (after (saveCity cityKey) w1)) as H.
    unfold keeps, after in H |- *. rewrite H.
    rewrite saveCity_run. simpl.
    by destruct (ls_status (localStorage (browser w))).
  - intros Hok.
    pose proof (selectCity_rest_keeps_store cityKey
                  (after (saveCity cityKey) w1)) as H.
    unfold holds, same, after in H |- *. rewrite H.
    rewrite saveCity_run. simpl. rewrite Hok. simpl.
    by rewrite lookup_insert_eq.
  - intros Hunknown.
    unfold bind at 1 3, showSelectedCity, bind, throw.
    rewrite Hunknown. simpl.
    split; [by eexists|].
    unfold after. rewrite saveCity_run. simpl.
    by destruct (ls_status (localStorage (browser w))).
Qed.

Lemma selectCity_records_before_checking_witness :
  cities_get (Some "paris") = CityUndefined
  ∧ currentCity (app (after (selectCity (Some "paris")) overlay_world))
    = Some "paris"
  ∧ navigation (app (after (selectCity (Some "paris")) overlay_world))
    = navigation (app overlay_world).
Proof.
  assert (cities_get (Some "paris") = CityUndefined) as Hu.
  { vm_compute. reflexivity. }
  split; [exact Hu|].
  destruct (selectCity_records_before_checking (Some "paris") overlay_world)
    as (Hc & _ & Hn).
  split; [exact Hc|exact (proj2 (Hn Hu))].
Defined.

(** ** A load that fails *)

#[global] Instance grows_preorder : PreOrder grows.
Proof.
  split.
  - intros b. unfold grows. reflexivity.
  - intros b1 b2 b3 H12 H23. unfold grows in *. by etransitivity.
Qed.

Ltac grows_side :=
  intros; unfold grows; cbn;
  first [reflexivity|apply prefix_app_r; reflexivity].

Lemma reported_returns m w : result (reported m) w = Returned tt.
Proof.
  unfold result, reported, try_catch, effect, tell.
  by destruct (m w) as [[[]|e] w1].
Qed.

(** After the [catch] block of [loadWeatherData] has run for the error
    [e], nothing is assigned and the error is in the console. *)
Lemma loadWeatherData_caught e w :
  result (reported (loadWeatherData_catch e)) w = Returned tt
  ∧ app (after (reported (loadWeatherData_catch e)) w) = app w
  ∧ ∃ rest, effects (browser (after (reported (loadWeatherData_catch e)) w))
            = effects (browser w)
              ++ ConsoleError "Error loading weather data:" e :: rest.
Proof.
  split; [apply reported_returns|]. split.
  - assert (preserves (keeps id) (reported (loadWeatherData_catch e))) as H
      by deep ltac:(fail).
    apply H.
  - unfold after, reported, loadWeatherData_catch, try_catch.
    unfold bind at 1, effect at 1, tell. simpl.
    match goal with
    | |- context [match ?m ?w1 with _ => _ end] =>
        assert (preserves (holds grows)
                  (try_catch m (λ e, effect (Uncaught e)))) as H
          by deep grows_side;
        specialize (H w1)
    end.
    unfold holds, grows, after, try_catch in H. simpl in H.
    destruct H as [rest H].
    exists rest. rewrite H. by rewrite <- app_assoc.
Qed.

(** X13.  A load that fails, because the request is rejected, the
    response is not [ok], or the body cannot be read, returns to its
    caller, logs the error to the console and assigns no field of [this]:
    the weather data and the chart of the last successful load stay. *)
Theorem failed_load_keeps_last_data w :
  (∀ r, r ≠ FetchResponse true →
        result (loadWeatherData_response r) w = Returned tt
        ∧ app (after (loadWeatherData_response r) w) = app w
        ∧ ∃ e rest,
            effects (browser (after (loadWeatherData_response r) w))
            = effects (browser w)
              ++ ConsoleError "Error loading weather data:" e :: rest)
  ∧ (∀ timeString,
       result (loadWeatherData_data None timeString) w = Returned tt
       ∧ app (after (loadWeatherData_data None timeString) w) = app w
       ∧ ∃ e rest,
           effects (browser (after (loadWeatherData_data None timeString) w))
           = effects (browser w)
             ++ ConsoleError "Error loading weather data:" e :: rest).
Proof.
  split.
  - intros r Hr.
    assert (∃ e, loadWeatherData_response r w
                 = reported (loadWeatherData_catch e) w) as [e He].
    { destruct r as [|[]]; [|done|]; eexists; reflexivity. }
    unfold result, after. rewrite He.
    destruct (loadWeatherData_caught e w) as (H1 & H2 & rest & H3).
    split; [exact H1|]. split; [exact H2|]. by exists e, rest.
  - intros timeString.
    assert (loadWeatherData_data None timeString w
            = reported (loadWeatherData_catch JsonRejected) w) as He
      by reflexivity.
    unfold result, after. rewrite He.
    destruct (loadWeatherData_caught JsonRejected w) as (H1 & H2 & rest & H3).
    split; [exact H1|]. split; [exact H2|]. by exists JsonRejected, rest.
Qed.

Lemma failed_load_keeps_last_data_witness :
  FetchFailed ≠ FetchResponse true
  ∧ weatherData (app (after (loadWeatherData_response FetchFailed)
                        refreshed_world))
    = Some sample_data.
Proof.
  assert (FetchFailed ≠ FetchResponse true) as H by discriminate.
  split; [exact H|].
  destruct (proj1 (failed_load_keeps_last_data refreshed_world) FetchFailed H)
    as (_ & -> & _).
  vm_compute. reflexivity.
Defined.

(** ** Switching the range *)

Ltac requests_side :=
  intros; unfold same; cbn; rewrite ?filter_app; cbn;
  rewrite ?app_nil_r; reflexivity.

Lemma setTimeRange_keeps_requests hours :
  preserves (holds (same (λ b, filter (λ e, is_fetch e = true) (effects b))))
    (setTimeRange hours).
Proof. deep requests_side. Qed.

Lemma classList_toggle_run el token force w :
  classList_toggle el token force w
  = (Returned tt,
     {| app := app w;
        browser := set_elements
                     (alter (toggled token force) el (elements (browser w)))
                     (browser w) |}).
Proof. by destruct force. Qed.

Lemma toggled_id id token force e :
  has_id id (toggled token force e) ↔ has_id id e.
Proof.
  unfold has_id, toggled. destruct force; [|done].
  by destruct (decide (token ∈ el_classes e)).
Qed.

Lemma toggled_tag token force e : el_tag (toggled token force e) = el_tag e.
Proof.
  unfold toggled. destruct force; [|done].
  by destruct (decide (token ∈ el_classes e)).
Qed.

Lemma tag_after_alter f el x (doc : list Element) :
  (∀ e, el_tag (f e) = el_tag e) →
  el_tag <$> alter f el doc !! x = el_tag <$> doc !! x.
Proof.
  intros Hf. rewrite list_lookup_alter.
  destruct (decide (el = x)) as [->|_]; [|done].
  destruct (doc !! x); simpl; [by rewrite Hf|done].
Qed.

(** What [drawChart] does when it has a response and a canvas. *)
Lemma drawChart_draws w data hourly_ el :
  weatherData (app w) = Some data → hourly data = Some hourly_ →
  fst <$> list_find (has_id "mainChart") (elements (browser w)) = Some el →
  el_tag <$> elements (browser w) !! el = Some "canvas" →
  drawChart w
  = (Returned tt,
     {| app := set_chart
                 (Some (chartData hourly_ (currentTimeRange (app w)))) (app w);
        browser := add_effect ChartCreate
                     (if chart (app w) is Some _
                      then add_effect ChartDestroy (browser w)
                      else browser w) |}).
Proof.
  intros Hd Hh Hc Htag.
  unfold drawChart, getContext, bind, this, deref, getElementById, ask,
    effect, tell, assign, ret, throw.
  simpl. rewrite Hd. simpl. rewrite Hh. simpl.
  destruct (chart (app w)); simpl; rewrite Hc; simpl;
    rewrite decide_True by (exact Htag); reflexivity.
Qed.

(** With both buttons in the page, [setTimeRange] comes down to the
    redraw in a world where the range is stored and the buttons are
    marked. *)
Lemma setTimeRange_run hours w a b :
  fst <$> list_find (has_id "range24h") (elements (browser w)) = Some a →
  fst <$> list_find (has_id "range48h") (elements (browser w)) = Some b →
  setTimeRange hours w
  = (data <- this weatherData ;; if data is Some _ then drawChart else ret tt)
      {| app := set_currentTimeRange hours (app w);
         browser :=
           set_elements
             (alter (toggled "active" (hours =? 48)%Z) b
                (alter (toggled "active" (hours =? 24)%Z) a
                   (elements (browser w))))
             (browser w) |}.
Proof.
  intros Ha Hb. unfold setTimeRange.
  erewrite bind_returned by reflexivity.
  erewrite bind_returned by reflexivity.
  cbn [browser elements]. rewrite Ha.
  erewrite bind_returned by reflexivity.
  erewrite bind_returned by apply classList_toggle_run.
  erewrite bind_returned by reflexivity.
  cbn [browser elements set_elements].
  rewrite find_after_alter by apply toggled_id. rewrite Hb.
  erewrite bind_returned by reflexivity.
  erewrite bind_returned by apply classList_toggle_run.
  reflexivity.
Qed.

(** X14.  [setTimeRange] stores the range and never sends a request or
    replaces the response it holds.  With both range buttons in the page
    it redraws from that response: without a response it returns and
    leaves the chart and the trace of calls alone; with a response and the
    canvas it returns with the chart computed from the response it held
    and the new range, the old chart destroyed first.  The chart after a
    switch to 48 hours is therefore drawn from the hours that were
    requested for the old range. *)
Theorem setTimeRange_sends_no_request hours w :
  requests (after (setTimeRange hours) w) = requests w
  ∧ weatherData (app (after (setTimeRange hours) w)) = weatherData (app w)
  ∧ currentTimeRange (app (after (setTimeRange hours) w)) = hours
  ∧ (∀ a b,
       result (getElementById "range24h") w = Returned (Some a) →
       result (getElementById "range48h") w = Returned (Some b) →
       (weatherData (app w) = None →
        result (setTimeRange hours) w = Returned tt
        ∧ chart (app (after (setTimeRange hours) w)) = chart (app w)
        ∧ effects (browser (after (setTimeRange hours) w))
          = effects (browser w))
       ∧ (∀ data hourly_ canvas,
            weatherData (app w) = Some data → hourly data = Some hourly_ →
            result (getElementById "mainChart") w = Returned (Some canvas) →
            el_tag <$> elements (browser w) !! canvas = Some "canvas" →
            result (setTimeRange hours) w = Returned tt
            ∧ chart (app (after (setTimeRange hours) w))
              = Some (chartData hourly_ hours)
            ∧ effects (browser (after (setTimeRange hours) w))
              = effects (browser w)
                ++ (if chart (app w) is Some _ then [ChartDestroy] else [])
                ++ [ChartCreate])).
Proof.
  split; [apply (setTimeRange_keeps_requests hours w)|].
  assert (preserves (keeps weatherData) (setTimeRange hours)) as Hw
    by deep ltac:(intros; reflexivity).
  split; [apply Hw|].
  split.
  { unfold setTimeRange, after. unfold bind at 1, assign. simpl.
    match goal with
    | |- currentTimeRange (app (?m ?w1).2) = _ =>
        assert (preserves (keeps currentTimeRange) m) as Hr
          by deep ltac:(intros; reflexivity);
        apply (Hr w1)
    end. }
  unfold result at 1 2, getElementById, ask. simpl. intros a b [= Ha] [= Hb].
  unfold result, after. rewrite (setTimeRange_run hours w a b Ha Hb).
  split.
  - intros Hnone. unfold bind, this. simpl. by rewrite Hnone.
  - intros data hourly_ canvas Hd Hh [= Hc] Htag.
    unfold bind at 1 2 3, this. simpl. rewrite Hd.
    erewrite (drawChart_draws _ data hourly_ canvas); simpl; try done.
    + split; [done|]. split; [done|].
      destruct (chart (app w)); simpl;
        rewrite <- ?app_assoc; by rewrite ?app_nil_r.
    + rewrite !find_after_alter by apply toggled_id. exact Hc.
    + rewrite !tag_after_alter by apply toggled_tag. exact Htag.
Qed.

Lemma setTimeRange_sends_no_request_witness :
  result (getElementById "range24h") refreshed_world = Returned (Some 3)
  ∧ result (getElementById "range48h") refreshed_world = Returned (Some 4)
  ∧ weatherData (app refreshed_world) = Some sample_data
  ∧ result (getElementById "mainChart") refreshed_world = Returned (Some 16)
  ∧ result (setTimeRange 48) refreshed_world = Returned tt
  ∧ chart (app (after (setTimeRange 48) refreshed_world))
    = Some (chartData sample_hourly 48)
  ∧ currentTime (chartData sample_hourly 48) = Some "y".
Proof.
  assert (result (getElementById "range24h") refreshed_world
          = Returned (Some 3)) as Ha.
  { vm_compute. reflexivity. }
  assert (result (getElementById "range48h") refreshed_world
          = Returned (Some 4)) as Hb.
  { vm_compute. reflexivity. }
  assert (weatherData (app refreshed_world) = Some sample_data) as Hd.
  { vm_compute. reflexivity. }
  assert (result (getElementById "mainChart") refreshed_world
          = Returned (Some 16)) as Hc.
  { vm_compute. reflexivity. }
  assert (el_tag <$> elements (browser refreshed_world) !! 16
          = Some "canvas") as Ht.
  { vm_compute. reflexivity. }
  split; [exact Ha|]. split; [exact Hb|]. split; [exact Hd|].
  split; [exact Hc|].
  destruct (proj2 (proj2 (proj2 (proj2
              (setTimeRange_sends_no_request 48 refreshed_world))) 3 4 Ha Hb)
              sample_data sample_hourly 16 Hd eq_refl Hc Ht)
    as (Hr & Hchart & _).
  split; [exact Hr|]. split; [exact Hchart|].
  vm_compute. reflexivity.
Defined.

(** ** The marker of the focus *)







(** ** The classes that show the state *)

Lemma token_after_add (e : Element) (token : string) :
  token ∈ el_classes (if decide (token ∈ el_classes e) then e
                      else with_classes (el_classes e ++ [token]) e).
Proof.
  destruct (decide (token ∈ el_classes e)) as [Hin|_]; [exact Hin|].
  simpl. apply elem_of_app. right. by apply list_elem_of_singleton.
Qed.

Lemma token_after_remove (e : Element) (token : string) :
  token ∉ el_classes (with_classes
                        (filter (λ c, c ≠ token) (el_classes e)) e).
Proof. simpl. by intros [Hne _]%list_elem_of_filter. Qed.

#[global] Instance same_token_preorder token : PreOrder (same_token token).
Proof.
  split.
  - by intros b el.
  - intros b1 b2 b3 H12 H23 el. etransitivity; [apply H23|apply H12].
Qed.

(** A change of one element that keeps [token] keeps it everywhere. *)
Lemma same_token_alter token f el b :
  (∀ e, token ∈ el_classes (f e) ↔ token ∈ el_classes e) →
  same_token token b (set_elements (alter f el (elements b)) b).
Proof.
  intros Hf el'. unfold classes_in. simpl.
  rewrite list_lookup_alter.
  destruct (decide (el = el')) as [->|_]; [|done].
  destruct (elements b !! el'); simpl; [apply Hf|done].
Qed.

Ltac token_side :=
  intros;
  first
    [ apply same_token_alter; intros; simpl;
      repeat case_decide; simpl;
      rewrite ?list_elem_of_filter, ?elem_of_app, ?list_elem_of_singleton;
      intuition congruence
    | intros ?; reflexivity ].

Lemma refocus_keeps_active :
  preserves (holds (same_token "active"))
    (updateFocusableElements ;; focusElement 0).
Proof. deep token_side. Qed.

Lemma toggleCityDropdown_run w d :
  result (getElementById "cityDropdown") w = Returned (Some d) →
  ∃ b, toggleCityDropdown w
       = (updateFocusableElements ;; focusElement 0)
           {| app := set_isDropdownOpen (negb (isDropdownOpen (app w))) (app w);
              browser := b |}
       ∧ ("active" ∈ classes_in b d ↔ isDropdownOpen (app w) = false).
Proof.
  unfold result, getElementById, ask. simpl. intros [= Hd].
  destruct (found_by_id _ _ _ Hd) as (e & He & _).
  unfold toggleCityDropdown.
  unfold bind at 1, this. simpl.
  unfold bind at 1, assign. simpl.
  unfold bind at 1, getElementById, ask. simpl.
  unfold bind at 1, this. simpl.
  rewrite Hd.
  destruct (isDropdownOpen (app w)); simpl;
    unfold bind at 1, deref, ret; simpl;
    unfold bind at 1, classList_add, classList_remove, update_element, tell;
    simpl; eexists; (split; [reflexivity|]);
    unfold classes_in; simpl; rewrite list_lookup_alter_eq, He; simpl.
  - split; [|discriminate]. intros H. by apply token_after_remove in H.
  - split; [done|]. intros _. apply token_after_add.
Qed.

Lemma closeDropdown_run w d :
  isDropdownOpen (app w) = true →
  result (getElementById "cityDropdown") w = Returned (Some d) →
  ∃ b, closeDropdown w
       = (updateFocusableElements ;; focusElement 0)
           {| app := set_isDropdownOpen false (app w); browser := b |}
       ∧ "active" ∉ classes_in b d.
Proof.
  intros Hopen. unfold result, getElementById, ask. simpl. intros [= Hd].
  destruct (found_by_id _ _ _ Hd) as (e & He & _).
  unfold closeDropdown.
  unfold bind at 1, this. simpl. rewrite Hopen.
  unfold bind at 1, assign. simpl.
  unfold bind at 1, getElementById, ask. simpl.
  rewrite Hd.
  unfold bind at 1, deref, ret. simpl.
  unfold bind at 1, classList_remove, update_element, tell. simpl.
  eexists. split; [reflexivity|].
  unfold classes_in. simpl. rewrite list_lookup_alter_eq, He. simpl.
  apply token_after_remove.
Qed.

(** X16.  With the dropdown in the page, [toggleCityDropdown] returns,
    switches the mode, and leaves the dropdown with the class [active] if
    and only if the overlay is then open; [closeDropdown] on an open
    overlay returns and leaves the dropdown without the class, in normal
    mode. *)
Theorem dropdown_class_follows_mode w d :
  result (getElementById "cityDropdown") w = Returned (Some d) →
  (result toggleCityDropdown w = Returned tt
   ∧ navigationMode (after toggleCityDropdown w) ≠ navigationMode w
   ∧ ("active" ∈ classes_at (after toggleCityDropdown w) d
      ↔ navigationMode (after toggleCityDropdown w) = OverlayOpen))
  ∧ (navigationMode w = OverlayOpen →
     result closeDropdown w = Returned tt
     ∧ navigationMode (after closeDropdown w) = Normal
     ∧ "active" ∉ classes_at (after closeDropdown w) d).
Proof.
  intros Hd. split.
  - destruct (toggleCityDropdown_run w d Hd) as (b & Hrun & Hactive).
    unfold result, after, navigationMode, classes_at. rewrite Hrun.
    match goal with
    | |- context [(updateFocusableElements ;; focusElement 0) ?w1] =>
        destruct (refocus_spec w1) as (Hr & Hm & _);
        pose proof (refocus_keeps_active w1 d) as Hsame
    end.
    unfold result, after in *. simpl in *.
    rewrite Hr, Hm, Hsame, Hactive.
    split; [done|].
    destruct (isDropdownOpen (app w)); simpl; split; done.
  - unfold navigationMode. intros Hopen.
    destruct (isDropdownOpen (app w)) eqn:E; [|discriminate].
    destruct (closeDropdown_run w d E Hd) as (b & Hrun & Hactive).
    unfold result, after, classes_at. rewrite Hrun.
    match goal with
    | |- context [(updateFocusableElements ;; focusElement 0) ?w1] =>
        destruct (refocus_spec w1) as (Hr & Hm & _);
        pose proof (refocus_keeps_active w1 d) as Hsame
    end.
    unfold result, after in *. simpl in *.
    rewrite Hr, Hm, Hsame. done.
Qed.

Lemma dropdown_class_follows_mode_witness :
  result (getElementById "cityDropdown") loaded_world = Returned (Some 2)
  ∧ navigationMode (after toggleCityDropdown loaded_world) = OverlayOpen
  ∧ "active" ∈ classes_at (after toggleCityDropdown loaded_world) 2.
Proof.
  assert (result (getElementById "cityDropdown") loaded_world
          = Returned (Some 2)) as Hd.
  { vm_compute. reflexivity. }
  assert (navigationMode (after toggleCityDropdown loaded_world)
          = OverlayOpen) as Hm.
  { vm_compute. reflexivity. }
  split; [exact Hd|]. split; [exact Hm|].
  destruct (proj1 (dropdown_class_follows_mode loaded_world 2 Hd))
    as (_ & _ & Hiff).
  by apply Hiff.
Defined.

Lemma redraw_keeps_elements :
  preserves (holds (same elements))
    (data <- this weatherData ;; if data is Some _ then drawChart else ret tt).
Proof. deep same_side. Qed.

Lemma toggled_token token force e :
  token ∈ el_classes (toggled token force e) ↔ force = true.
Proof.
  destruct force; simpl.
  - split; [done|]. intros _. apply token_after_add.
  - split; [|discriminate]. intros H. by apply token_after_remove in H.
Qed.

(** With both buttons in the page, [setTimeRange] toggles the class on
    the one and on the other, and the redraw leaves the page alone. *)
Lemma setTimeRange_elements hours w a b :
  fst <$> list_find (has_id "range24h") (elements (browser w)) = Some a →
  fst <$> list_find (has_id "range48h") (elements (browser w)) = Some b →
  elements (browser (after (setTimeRange hours) w))
  = alter (toggled "active" (hours =? 48)%Z) b
      (alter (toggled "active" (hours =? 24)%Z) a (elements (browser w))).
Proof.
  intros Ha Hb. unfold after, setTimeRange.
  erewrite bind_returned by reflexivity.
  erewrite bind_returned by reflexivity.
  cbn [browser elements]. rewrite Ha.
  erewrite bind_returned by reflexivity.
  erewrite bind_returned by apply classList_toggle_run.
  erewrite bind_returned by reflexivity.
  cbn [browser elements set_elements].
  rewrite find_after_alter by apply toggled_id. rewrite Hb.
  erewrite bind_returned by reflexivity.
  erewrite bind_returned by apply classList_toggle_run.
  match goal with
  | |- elements (browser (?m ?w5).2) = _ =>
      pose proof (redraw_keeps_elements w5) as Hkeep
  end.
  unfold holds, same, after in Hkeep. rewrite Hkeep. reflexivity.
Qed.

(** X17.  With both range buttons in the page, after [setTimeRange] the
    24h button carries the class [active] if and only if the range is 24,
    and the 48h button if and only if the range is 48, whether the redraw
    that follows succeeds or not: at most one of them is marked, and none
    for any other range. *)
Theorem setTimeRange_marks_buttons hours w a b :
  result (getElementById "range24h") w = Returned (Some a) →
  result (getElementById "range48h") w = Returned (Some b) →
  ("active" ∈ classes_at (after (setTimeRange hours) w) a ↔ hours = 24%Z)
  ∧ ("active" ∈ classes_at (after (setTimeRange hours) w) b ↔ hours = 48%Z).
Proof.
  unfold result, getElementById, ask. simpl. intros [= Ha] [= Hb].
  destruct (found_by_id _ _ _ Ha) as (ea & Hea & _).
  destruct (found_by_id _ _ _ Hb) as (eb & Heb & _).
  assert (a ≠ b) as Hab.
  { by apply (found_distinct _ "range24h" "range48h" _ _ ltac:(done) Ha Hb). }
  unfold classes_at, classes_in.
  rewrite (setTimeRange_elements hours w a b Ha Hb).
  split.
  - rewrite list_lookup_alter_ne by done.
    rewrite list_lookup_alter_eq, Hea. simpl.
    rewrite toggled_token. apply Z.eqb_eq.
  - rewrite list_lookup_alter_eq, list_lookup_alter_ne, Heb by done. simpl.
    rewrite toggled_token. apply Z.eqb_eq.
Qed.

Lemma setTimeRange_marks_buttons_witness :
  result (getElementById "range24h") loaded_world = Returned (Some 3)
  ∧ result (getElementById "range48h") loaded_world = Returned (Some 4)
  ∧ "active" ∈ classes_at (after (setTimeRange 48) loaded_world) 4
  ∧ ¬ ("active" ∈ classes_at (after (setTimeRange 48) loaded_world) 3).
Proof.
  assert (result (getElementById "range24h") loaded_world
          = Returned (Some 3)) as Ha.
  { vm_compute. reflexivity. }
  assert (result (getElementById "range48h") loaded_world
          = Returned (Some 4)) as Hb.
  { vm_compute. reflexivity. }
  split; [exact Ha|]. split; [exact Hb|].
  destruct (setTimeRange_marks_buttons 48 loaded_world 3 4 Ha Hb) as [H24 H48].
  split.
  - by apply H48.
  - intros H. apply H24 in H. discriminate.
Defined.

(** ** A response that arrives *)

Lemma loadWeatherData_data_run data timeString w :
  loadWeatherData_data (Some data) timeString w
  = reported
      (try_catch
         (updateCurrentWeather data ;; drawChart ;;
          updateLastUpdateTime timeString ;; showLoading false)
         loadWeatherData_catch)
      {| app := set_weatherData (Some data) (app w); browser := browser w |}.
Proof. reflexivity. Qed.

Lemma after_response_keeps_weatherData data timeString :
  preserves (keeps weatherData)
    (reported
       (try_catch
          (updateCurrentWeather data ;; drawChart ;;
           updateLastUpdateTime timeString ;; showLoading false)
          loadWeatherData_catch)).
Proof. deep ltac:(intros; reflexivity). Qed.

(** X18.  The body of a response is stored before it is looked at:
    after [loadWeatherData] has received a body, [this.weatherData] is
    that body, whatever it holds and whatever happens next.  When the body
    has no [hourly] record, the update throws, the error is logged, and
    the chart is left as it was, next to a response it was not drawn
    from. *)
Theorem response_stored_before_checked data timeString w :
  weatherData (app (after (loadWeatherData_data (Some data) timeString) w))
  = Some data
  ∧ (hourly data = None →
     chart (app (after (loadWeatherData_data (Some data) timeString) w))
     = chart (app w)
     ∧ ∃ rest,
         effects (browser
                    (after (loadWeatherData_data (Some data) timeString) w))
         = effects (browser w)
           ++ ConsoleError "Error loading weather data:" (TypeError "hourly")
              :: rest).
Proof.
  split.
  - unfold after. rewrite loadWeatherData_data_run.
    pose proof (after_response_keeps_weatherData data timeString
                  {| app := set_weatherData (Some data) (app w);
                     browser := browser w |}) as H.
    unfold keeps, after in H. by rewrite H.
  - intros Hh.
    assert (loadWeatherData_data (Some data) timeString w
            = reported (loadWeatherData_catch (TypeError "hourly"))
                {| app := set_weatherData (Some data) (app w);
                   browser := browser w |}) as Hrun.
    { rewrite loadWeatherData_data_run.
      unfold reported, try_catch at 2, bind at 1, updateCurrentWeather,
        bind at 1, deref.
      by rewrite Hh. }
    unfold after. rewrite Hrun.
    match goal with
    | |- context [reported _ ?w1] =>
        destruct (loadWeatherData_caught (TypeError "hourly") w1)
          as (_ & Happ & rest & Heff)
    end.
    unfold after in Happ, Heff. rewrite Happ. split; [done|].
    exists rest. exact Heff.
Qed.

Lemma response_stored_before_checked_witness :
  hourly {| hourly := None |} = None
  ∧ weatherData (app (after (loadWeatherData_data
                               (Some {| hourly := None |}) "12:00")
                        refreshed_world))
    = Some {| hourly := None |}
  ∧ chart (app (after (loadWeatherData_data
                         (Some {| hourly := None |}) "12:00")
                  refreshed_world))
    = chart (app refreshed_world).
Proof.
  split; [reflexivity|].
  destruct (response_stored_before_checked {| hourly := None |} "12:00"
              refreshed_world) as [Hdata Hchart].
  split; [exact Hdata|exact (proj1 (Hchart eq_refl))].
Defined.

(** X19.  A response of at most 24 hours has no present and no future:
    the current temperature is undefined, the future series of the chart
    are empty and there is no marker of the present, while the past
    series hold every hour of the response. *)
Theorem short_response_has_no_future hourly_ range :
  (0 ≤ range)%Z →
  length (time hourly_) ≤ 24 →
  length (temperature_2m hourly_) ≤ 24 →
  length (precipitation hourly_) ≤ 24 →
  currentTemp (readCurrentWeather hourly_) = None
  ∧ currentPrecipitation (readCurrentWeather hourly_) = None
  ∧ futureTemperature (chartData hourly_ range) = []
  ∧ futurePrecipitation (chartData hourly_ range) = []
  ∧ currentTime (chartData hourly_ range) = None
  ∧ pastTemperature (chartData hourly_ range)
    = points (time hourly_) (temperature_2m hourly_)
  ∧ pastPrecipitation (chartData hourly_ range)
    = points (time hourly_) (precipitation hourly_).
Proof.
  intros Hrange Htimes Htemps Hprecip.
  unfold readCurrentWeather, chartData. simpl.
  rewrite !(index_lookup _ 24).
  rewrite !slice_window by lia.
  replace (Z.to_nat (24 + 1)) with 25 by lia.
  replace (Z.to_nat 24) with 24 by lia.
  replace (Z.to_nat 0) with 0 by lia.
  rewrite !lookup_ge_None_2 by lia.
  rewrite !(drop_ge (take _ _) 24) by (rewrite length_take; lia).
  rewrite !take_ge by lia.
  done.
Qed.

Lemma short_response_has_no_future_witness :
  (0 ≤ 24)%Z
  ∧ length (time {| time := ["a"]; temperature_2m := [Num (inject_Z 7)];
                    precipitation := [Num (inject_Z 0)];
                    relative_humidity_2m := []; wind_speed_10m := [];
                    weather_code := [] |}) ≤ 24
  ∧ futureTemperature
      (chartData {| time := ["a"]; temperature_2m := [Num (inject_Z 7)];
                    precipitation := [Num (inject_Z 0)];
                    relative_humidity_2m := []; wind_speed_10m := [];
                    weather_code := [] |} 24) = [].
Proof.
  assert (0 ≤ 24)%Z as Hr by lia.
  assert (1 ≤ 24) as H1 by lia.
  split; [exact Hr|]. split; [exact H1|].
  exact (proj1 (proj2 (proj2
           (short_response_has_no_future
              {| time := ["a"]; temperature_2m := [Num (inject_Z 7)];
                 precipitation := [Num (inject_Z 0)];
                 relative_humidity_2m := []; wind_speed_10m := [];
                 weather_code := [] |} 24 Hr H1 H1 H1)))).
Defined.

(** ** The request *)

Lemma showLoading_run show w overlay :
  fst <$> list_find (has_id "loadingOverlay") (elements (browser w))
  = Some overlay →
  showLoading show w
  = (Returned tt,
     {| app := app w;
        browser := set_elements
                     (alter (toggled "active" show) overlay
                        (elements (browser w)))
                     (browser w) |}).
Proof.
  intros Ho. unfold showLoading.
  erewrite bind_returned by reflexivity. rewrite Ho.
  erewrite bind_returned by reflexivity.
  apply classList_toggle_run.
Qed.

Lemma hideError_run w errorEl :
  fst <$> list_find (has_id "errorMessage") (elements (browser w))
  = Some errorEl →
  hideError w
  = (Returned tt,
     {| app := app w;
        browser := set_elements
                     (alter (toggled "active" false) errorEl
                        (elements (browser w)))
                     (browser w) |}).
Proof.
  intros He. unfold hideError.
  erewrite bind_returned by reflexivity. rewrite He.
  erewrite bind_returned by reflexivity.
  reflexivity.
Qed.

Lemma loadWeatherData_catch_keeps_requests error :
  preserves (holds (same (λ b, filter (λ e, is_fetch e = true) (effects b))))
    (reported (loadWeatherData_catch error)).
Proof. deep requests_side. Qed.

(** X20.  With the loading overlay and the error message in the page,
    [loadWeatherData] for a city of the table sends exactly one request:
    for the coordinates of [currentCity], 24 past hours and
    [currentTimeRange] forecast hours; it leaves the loading overlay
    shown and the error message hidden.  For a key that [this.cities]
    does not have it sends no request. *)
Theorem loadWeatherData_requests_current_city w overlay errorEl :
  result (getElementById "loadingOverlay") w = Returned (Some overlay) →
  result (getElementById "errorMessage") w = Returned (Some errorEl) →
  (∀ c, cities_get (currentCity (app w)) = CityOwn c →
        requests (after loadWeatherData w)
        = requests w
          ++ [Fetch {| latitude := lat c; longitude := lon c;
                       past_hours := 24;
                       forecast_hours := currentTimeRange (app w) |}]
        ∧ ("active" ∈ classes_at (after loadWeatherData w) overlay)
        ∧ ("active" ∉ classes_at (after loadWeatherData w) errorEl)
        ∧ pendingFetch (browser (after loadWeatherData w))
          = S (pendingFetch (browser w)))
  ∧ (cities_get (currentCity (app w)) = CityUndefined →
     requests (after loadWeatherData w) = requests w).
Proof.
  unfold result, getElementById, ask. simpl. intros [= Ho] [= He].
  destruct (found_by_id _ _ _ Ho) as (eo & Heo & _).
  destruct (found_by_id _ _ _ He) as (ee & Hee & _).
  assert (overlay ≠ errorEl) as Hne.
  { by apply (found_distinct _ "loadingOverlay" "errorMessage" _ _
                ltac:(done) Ho He). }
  assert (fst <$> list_find (has_id "errorMessage")
                    (alter (toggled "active" true) overlay
                       (elements (browser w))) = Some errorEl) as He'.
  { rewrite find_after_alter by apply toggled_id. exact He. }
  split.
  - intros c Hc.
    assert (loadWeatherData w
            = (Returned tt,
               {| app := app w;
                  browser :=
                    set_pending (S (pendingFetch (browser w)))
                      (pendingJson (browser w))
                      (add_effect
                         (Fetch {| latitude := lat c; longitude := lon c;
                                   past_hours := 24;
                                   forecast_hours := currentTimeRange (app w) |})
                         (set_elements
                            (alter (toggled "active" false) errorEl
                               (alter (toggled "active" true) overlay
                                  (elements (browser w))))
                            (browser w))) |})) as Hrun.
    { unfold loadWeatherData, reported, try_catch at 1.
      erewrite bind_returned by reflexivity. cbv zeta. rewrite Hc.
      erewrite bind_returned by (apply showLoading_run; exact Ho).
      erewrite bind_returned by (apply hideError_run; exact He').
      reflexivity. }
    unfold requests, classes_at, classes_in, after. rewrite Hrun. simpl.
    rewrite filter_app. simpl.
    split; [done|]. split; [|split; [|done]].
    + rewrite list_lookup_alter_ne, list_lookup_alter_eq, Heo by done.
      simpl. apply token_after_add.
    + rewrite list_lookup_alter_eq, list_lookup_alter_ne, Hee by done.
      simpl. apply token_after_remove.
  - intros Hc.
    assert (∃ w2, loadWeatherData w
                  = reported (loadWeatherData_catch (TypeError "city")) w2
                  ∧ effects (browser w2) = effects (browser w))
      as (w2 & Hrun & Heff).
    { eexists. split.
      - unfold loadWeatherData, reported, try_catch at 1.
        erewrite bind_returned by reflexivity. cbv zeta. rewrite Hc.
        erewrite bind_returned by (apply showLoading_run; exact Ho).
        erewrite bind_returned by (apply hideError_run; exact He').
        reflexivity.
      - reflexivity. }
    unfold requests, after. rewrite Hrun.
    pose proof (loadWeatherData_catch_keeps_requests (TypeError "city") w2)
      as H.
    unfold holds, same, after in H. rewrite H. by rewrite Heff.
Qed.

Lemma loadWeatherData_requests_current_city_witness :
  result (getElementById "loadingOverlay") overlay_world = Returned (Some 6)
  ∧ result (getElementById "errorMessage") overlay_world = Returned (Some 7)
  ∧ requests (after loadWeatherData overlay_world)
    = requests overlay_world
      ++ [Fetch {| latitude := "35.6762"; longitude := "139.6503";
                   past_hours := 24; forecast_hours := 24 |}].
Proof.
  assert (result (getElementById "loadingOverlay") overlay_world
          = Returned (Some 6)) as Ho.
  { vm_compute. reflexivity. }
  assert (result (getElementById "errorMessage") overlay_world
          = Returned (Some 7)) as He.
  { vm_compute. reflexivity. }
  split; [exact Ho|]. split; [exact He|].
  destruct (proj1 (loadWeatherData_requests_current_city overlay_world 6 7
                     Ho He)
              {| name := "東京"; lat := "35.6762"; lon := "139.6503" |})
    as (Hreq & _).
  { vm_compute. reflexivity. }
  rewrite Hreq. vm_compute. reflexivity.
Defined.
